(** * Campus incident map: a shallow embedding of [src/App.tsx]

    The development follows the source file from top to bottom:

    - [Js]        the platform functions the component calls (string
                  methods, number printing, [Date], [Array.prototype.sort]);
    - [Facility], [Incident] and [Registry]: the two record types and the
                  static tables [mainBuildingParts] and [facilities];
    - [Text]      [truncate];
    - [Three]     the part of the scene-graph library the highlight code
                  relies on: objects with identity, a store of material
                  references and a heap of materials;
    - [Highlight] [unhighlightAllObjects] and [highlightObjectsByLocation];
    - [Picking]   the [onMouseMove] handler;
    - [Overlay]   the incident-visualisation effect;
    - [Store]     [handleAddIncident] and the store reachable from it;
    - [Panel]     [sortedIncidents] and the incident list.

    The definitions come first, then the vocabulary of the statements and
    some sample data, then the facts, component by component.

    Conventions.  A JavaScript string is a [string]; one character of the
    model stands for one code unit of the source string.  The Korean
    literals of the source are written as they are (UTF-8 in this file):
    they are only compared, searched for a prefix and split, and these
    operations agree on both encodings.  A JavaScript number that the
    program uses as an integer (an id, a count, a pixel coordinate, a
    time stamp) is a [Z]; [NaN] is [None] where the source can produce it
    (dates).  The sums of counts the program forms are numbers in double
    precision, [Js.number], added with [Js.add] and printed with
    [Js.toString].  Scene coordinates are rationals. *)

From Stdlib Require Import ZArith QArith String Ascii List.
From Stdlib Require Import DecimalString DecimalZ Sorted Permutation Lia.
From stdpp Require Import gmap strings list.

Open Scope string_scope.
Open Scope list_scope.
Open Scope Z_scope.

(* ===================================================================== *)
(** ** Platform functions *)
(* ===================================================================== *)

Module Js.

(** [s.startsWith(p)] *)
Definition startsWith (s p : string) : bool := String.prefix p s.

(** [s.slice(start, end)]: negative indices count from the end of the
    string, both are clamped to [0, s.length]. *)
Definition clampIndex (len i : Z) : Z :=
  if i <? 0 then Z.max (len + i) 0 else Z.min i len.

Definition slice (s : string) (start stop : Z) : string :=
  let len := Z.of_nat (String.length s) in
  let from := clampIndex len start in
  let to := clampIndex len stop in
  substring (Z.to_nat from) (Z.to_nat (Z.max (to - from) 0)) s.

(** [s.split(sep)] for a non-empty separator: [skip] counts the
    characters of a separator occurrence still to be dropped, [cur] is
    the piece being collected. *)
Fixpoint split_go (sep : string) (skip : nat) (cur s : string) : list string :=
  match s with
  | EmptyString => [cur]
  | String c s' =>
      match skip with
      | S k => split_go sep k cur s'
      | O =>
          if String.prefix sep s
          then cur :: split_go sep (String.length sep - 1) EmptyString s'
          else split_go sep 0 (cur +:+ String c EmptyString) s'
      end
  end.

Definition split (s sep : string) : list string := split_go sep 0 EmptyString s.

(** *** Numbers

    A number is a double.  The numbers the program adds and prints are
    counts, which [parseInt] makes integers, and their sums; so a number is
    here an integer that is a double, an infinity, or [NaN]. *)
Inductive number : Type :=
  | Finite (z : Z)
  | Infinite (negative : bool)
  | NaN.

(** The double nearest to an integer, were the exponent unbounded: the
    integer is cut to 53 significant bits, to the nearest, and to the even
    one of two equally near. *)
Definition roundInteger (z : Z) : Z :=
  let a := Z.abs z in
  let e := Z.log2 a - 52 in
  if e <=? 0 then z
  else
    let q := a / 2 ^ e in
    let r := a mod 2 ^ e in
    let half := 2 ^ (e - 1) in
    let q' := if (r >? half) || ((r =? half) && Z.odd q) then q + 1 else q in
    Z.sgn z * (q' * 2 ^ e).

(** The number an integer becomes; from [2 ^ 1024] on it is an infinity. *)
Definition fromInteger (z : Z) : number :=
  let r := roundInteger z in
  if Z.abs r >=? 2 ^ 1024 then Infinite (z <? 0) else Finite r.

(** [a + b] *)
Definition add (a b : number) : number :=
  match a, b with
  | NaN, _ => NaN
  | _, NaN => NaN
  | Infinite s, Infinite t => if Bool.eqb s t then Infinite s else NaN
  | Infinite s, Finite _ => Infinite s
  | Finite _, Infinite t => Infinite t
  | Finite x, Finite y => fromInteger (x + y)
  end.

(** All the digits of an integer. *)
Definition decimal (z : Z) : string := NilZero.string_of_int (Z.to_int z).

Definition zeros (n : Z) : string :=
  string_of_list_ascii (repeat "0"%char (Z.to_nat n)).

(** [n.toString()] prints the fewest digits that denote the number: [k]
    digits [s] and a power of ten, [s * 10 ^ (n - k)], that is the number
    once rounded; of several such [s] the nearest to the number, and the
    even one of two equally near. *)
Definition denotes (x s j : Z) : bool :=
  match fromInteger (s * 10 ^ j) with
  | Finite y => y =? x
  | _ => false
  end.

(** The digit strings of length [k] that denote [x], with their [n];
    [d] is the number of digits of [x] itself. *)
Definition candidates (x d k : Z) : list (Z * Z) :=
  flat_map
    (fun n =>
       let j := n - k in
       if j <? 0 then []
       else
         let s0 := x / 10 ^ j in
         List.filter
           (fun sn =>
              (10 ^ (k - 1) <=? fst sn) && (fst sn <? 10 ^ k)
              && denotes x (fst sn) j)
           [(s0, n); (s0 + 1, n)])
    [d; d + 1].

Definition closer (x k : Z) (a b : Z * Z) : Z * Z :=
  let da := Z.abs (fst a * 10 ^ (snd a - k) - x) in
  let db := Z.abs (fst b * 10 ^ (snd b - k) - x) in
  if db <? da then b
  else if (db =? da) && Z.even (fst b) && negb (Z.even (fst a)) then b
  else a.

Definition best (x k : Z) (cs : list (Z * Z)) : option (Z * Z) :=
  match cs with
  | [] => None
  | c :: cs' => Some (fold_left (closer x k) cs' c)
  end.

(** The least [k], from [k] on, with its [s] and [n]; seventeen digits
    always suffice. *)
Fixpoint shortest (x d k : Z) (tries : nat) : option (Z * Z * Z) :=
  match tries with
  | O => None
  | S tries' =>
      match best x k (candidates x d k) with
      | Some (s, n) => Some (s, n, k)
      | None => shortest x d (k + 1) tries'
      end
  end.

(** Up to [2 ^ 53] every integer is a number of its own, and all its
    digits are printed.  Above, the digits found are followed by zeros up
    to twenty-one digits in all, and by an exponent beyond. *)
Definition positiveToString (x : Z) : string :=
  if x <=? 2 ^ 53 then decimal x
  else
    let d := Z.of_nat (String.length (decimal x)) in
    match shortest x d 1 17 with
    | None => decimal x
    | Some (s, n, k) =>
        let ds := decimal s in
        if n <=? 21 then ds +:+ zeros (n - k)
        else
          let mantissa :=
            if k =? 1 then ds
            else substring 0 1 ds +:+ "." +:+ substring 1 (Z.to_nat (k - 1)) ds in
          mantissa +:+ "e+" +:+ decimal (n - 1)
    end.

(** [n.toString()], and [n] interpolated in a template. *)
Definition toString (v : number) : string :=
  match v with
  | NaN => "NaN"
  | Infinite false => "Infinity"
  | Infinite true => "-Infinity"
  | Finite z =>
      if z <? 0 then "-" +:+ positiveToString (- z) else positiveToString z
  end.

(** The integer a plain decimal text shows. *)
Definition shownNumber (s : string) : option Z :=
  option_map Z.of_int (NilZero.int_of_string s).

(** *** [new Date(s).getTime()]

    The form's date input yields the date-only ISO form [YYYY-MM-DD],
    which [Date] reads as midnight UTC of that day; the result is the
    number of milliseconds since 1970-01-01.  Any other text is an
    invalid date here, whose time value is [NaN] ([None]). *)

Definition digit (c : ascii) : option Z :=
  let n := Z.of_nat (nat_of_ascii c) in
  if (48 <=? n) && (n <=? 57) then Some (n - 48) else None.

Fixpoint digits (acc : Z) (s : string) : option Z :=
  match s with
  | EmptyString => Some acc
  | String c s' =>
      match digit c with
      | Some d => digits (10 * acc + d) s'
      | None => None
      end
  end.

Definition isLeap (y : Z) : bool :=
  ((y mod 4 =? 0) && negb (y mod 100 =? 0)) || (y mod 400 =? 0).

Definition daysInMonth (y m : Z) : Z :=
  if m =? 2 then (if isLeap y then 29 else 28)
  else if (m =? 4) || (m =? 6) || (m =? 9) || (m =? 11) then 30
  else 31.

(** Days between 1970-01-01 and the given civil date. *)
Definition daysFromCivil (y m d : Z) : Z :=
  let y' := if m <=? 2 then y - 1 else y in
  let era := y' / 400 in
  let yoe := y' - era * 400 in
  let mp := if m >? 2 then m - 3 else m + 9 in
  let doy := (153 * mp + 2) / 5 + d - 1 in
  let doe := yoe * 365 + yoe / 4 - yoe / 100 + doy in
  era * 146097 + doe - 719468.

Definition msPerDay : Z := 86400000.

Definition getTime (s : string) : option Z :=
  if (String.length s =? 10)%nat
     && (substring 4 1 s =? "-")%string && (substring 7 1 s =? "-")%string
  then
    match digits 0 (substring 0 4 s), digits 0 (substring 5 2 s),
          digits 0 (substring 8 2 s) with
    | Some y, Some m, Some d =>
        if (1 <=? m) && (m <=? 12) && (1 <=? d) && (d <=? daysInMonth y m)
        then Some (daysFromCivil y m d * msPerDay)
        else None
    | _, _, _ => None
    end
  else None.

(** [a > b] and [a - b] on time values; both are [NaN]-aware. *)
Definition gt (a b : option Z) : bool :=
  match a, b with
  | Some x, Some y => x >? y
  | _, _ => false
  end.

Definition sub (a b : option Z) : option Z :=
  match a, b with
  | Some x, Some y => Some (x - y)
  | _, _ => None
  end.

(** *** [Array.prototype.sort(compare)]

    The sort is stable, and a comparison result of [NaN] counts as [0].
    For a consistent comparator the stable sort of a list is unique;
    it is computed here by insertion from the right: an element stays in
    front of the elements that followed it unless the comparator puts it
    strictly after them. *)
Section Sort.
Context {A : Type} (compare : A -> A -> option Z).

Definition comparison (a b : A) : Z :=
  match compare a b with
  | Some v => v
  | None => 0
  end.

Fixpoint insert (a : A) (l : list A) : list A :=
  match l with
  | [] => [a]
  | b :: l' => if comparison a b <=? 0 then a :: l else b :: insert a l'
  end.

Fixpoint sort (l : list A) : list A :=
  match l with
  | [] => []
  | a :: l' => insert a (sort l')
  end.
End Sort.

End Js.

(* ===================================================================== *)
(** ** Types and static tables *)
(* ===================================================================== *)

Definition vec3 : Type := Q * Q * Q.

Definition vx (v : vec3) : Q := fst (fst v).
Definition vy (v : vec3) : Q := snd (fst v).
Definition vz (v : vec3) : Q := snd v.

Module Facility.
Inductive shape := box | plane.

Record t := make {
  name : string;
  position : vec3;
  size : vec3;
  color : string;
  type : shape
}.
End Facility.

Module Incident.
Record t := make {
  id : Z;
  date : string;
  location : string;
  count : Z;
  cause : string
}.

(** [new Date(incident.date).getTime()] *)
Definition time (incident : t) : option Z := Js.getTime (date incident).
End Incident.

Module Registry.

Definition mainBuildingPosition : vec3 := (-15, 2.5, 0)%Q.
Definition mainBuildingSize : vec3 := (10, 5, 20)%Q.

(** The prefix of the main building's sub-location keys. *)
Definition mainBuilding : string := "본관동".
Definition gymnasium : string := "체육관".

Record Part := mkPart {
  part_position : vec3;
  part_size : vec3;
  part_color : string
}.

Definition mainBuildingParts : list (string * list Part) :=
  [ ("본관동 - 교실",
      [ mkPart (-18, 2.4, 6.5)%Q (4, 4.8, 6)%Q "#F59E0B";
        mkPart (-12, 2.4, 6.5)%Q (4, 4.8, 6)%Q "#F59E0B";
        mkPart (-18, 2.4, -1.5)%Q (4, 4.8, 6)%Q "#F59E0B";
        mkPart (-12, 2.4, -1.5)%Q (4, 4.8, 6)%Q "#F59E0B" ]);
    ("본관동 - 복도",
      [ mkPart (-15, 2.4, 0)%Q (2, 4.8, 20)%Q "#D1D5DB" ]);
    ("본관동 - 화장실",
      [ mkPart (-18, 2.4, -8)%Q (4, 4.8, 4)%Q "#60A5FA";
        mkPart (-12, 2.4, -8)%Q (4, 4.8, 4)%Q "#60A5FA" ]) ].

Definition facilities : list Facility.t :=
  [ Facility.make "본관동 - 교실" (-15, 5, 2.5)%Q (1, 1, 1)%Q "" Facility.box;
    Facility.make "본관동 - 복도" (-15, 5, 0)%Q (1, 1, 1)%Q "" Facility.box;
    Facility.make "본관동 - 화장실" (-15, 5, -8)%Q (1, 1, 1)%Q "" Facility.box;
    Facility.make "체육관" (15, 4, 10)%Q (15, 8, 12)%Q "#0000FF" Facility.box;
    Facility.make "정보화동" (15, 2, -10)%Q (10, 4, 8)%Q "#008000" Facility.box;
    Facility.make "운동장" (0, 0.05, 0)%Q (20, 30, 0)%Q "#A0522D" Facility.plane;
    Facility.make "급식실" (-5, 1.5, 15)%Q (8, 3, 6)%Q "#FFA500" Facility.box;
    Facility.make "학생식당" (-5, 1.5, 22)%Q (8, 3, 8)%Q "#2DD4BF" Facility.box;
    Facility.make "창고" (20, 1, 0)%Q (4, 2, 4)%Q "#A9A9A9" Facility.box ].

Definition facilityLocations : list string := map Facility.name facilities.

(** [facilities.find(f => f.name === location)] *)
Definition findFacility (location : string) : option Facility.t :=
  List.find (fun f => (Facility.name f =? location)%string) facilities.

(** [mainBuildingParts[location]] *)
Fixpoint lookupParts (table : list (string * list Part)) (location : string)
  : option (list Part) :=
  match table with
  | [] => None
  | (k, ps) :: table' =>
      if (k =? location)%string then Some ps else lookupParts table' location
  end.

End Registry.

(* ===================================================================== *)
(** ** [truncate] *)
(* ===================================================================== *)

Module Text.

Definition truncate (str : string) (n : Z) : string :=
  if Z.of_nat (String.length str) >? n
  then Js.slice str 0 (n - 1) +:+ "..."
  else str.

End Text.

(* ===================================================================== *)
(** ** The scene graph *)
(* ===================================================================== *)

(** What the highlight code needs of the rendering library.  A scene
    object has an identity; its [material] property holds a reference,
    either to one material or to an array of materials.  The tree of
    objects does not change while highlighting runs, so it is a value; the
    [material] properties and the materials themselves are mutable, so they
    live in stores indexed by identity. *)

Module Three.

Definition objid : Type := nat.
Definition ref : Type := nat.

#[warnings="-register-all"]
Inductive Object3D : Type :=
  mkObject {
    uuid : objid;
    name : string;
    type : string;
    userData_location : option string;
    children : list Object3D
  }.

(** The materials the program creates, with the properties the highlight
    treatment writes. *)
Inductive Material : Type :=
  | MeshStandardMaterial (color emissive : string) (emissiveIntensity : Q)
  | LineBasicMaterial (color : string)
  | MeshBasicMaterial (color : string).

Inductive hval : Type :=
  | HMaterial (m : Material)
  | HArray (elems : list ref).

(** [object.traverse(callback)]: the object, then its descendants, in
    depth-first order. *)
Fixpoint traverse (o : Object3D) : list Object3D :=
  o :: flat_map traverse (children o).

(** [object.getObjectByName(n)]: the first object of that name in the same
    order. *)
Fixpoint getObjectByName (n : string) (o : Object3D) : option Object3D :=
  if (name o =? n)%string then Some o
  else
    (fix first (cs : list Object3D) : option Object3D :=
       match cs with
       | [] => None
       | c :: cs' =>
           match getObjectByName n c with
           | Some r => Some r
           | None => first cs'
           end
       end) (children o).

(** A new heap value gets an identity that is not in use. *)
Definition alloc (h : gmap ref hval) (v : hval) : gmap ref hval * ref :=
  let r := fresh (dom h) in (<[r := v]> h, r).

(** [m.clone()]: a copy under a new identity.  A reference held by a scene
    object always points into the heap; a blank material stands for the
    target of a reference that does not. *)
Definition blank : hval := HMaterial (MeshBasicMaterial "").

Definition clone (h : gmap ref hval) (r : ref) : gmap ref hval * ref :=
  alloc h (default blank (h !! r)).

(** [materials.map(m => m.clone())] *)
Fixpoint cloneEach (h : gmap ref hval) (rs : list ref) : gmap ref hval * list ref :=
  match rs with
  | [] => (h, [])
  | r :: rs' =>
      let '(h1, r') := clone h r in
      let '(h2, rs'') := cloneEach h1 rs' in
      (h2, r' :: rs'')
  end.

Definition cloneArray (h : gmap ref hval) (rs : list ref) : gmap ref hval * ref :=
  let '(h1, rs') := cloneEach h rs in alloc h1 (HArray rs').

End Three.

(* ===================================================================== *)
(** ** Highlighting *)
(* ===================================================================== *)

Module Highlight.
Import Three.

Record HighlightedObject := mkHighlighted {
  object : objid;
  originalMaterial : ref
}.

(** The mutable state the two callbacks work on: the materials, the
    [material] property of every object that has one, and
    [highlightedObjectsRef.current]. *)
Record State := mkState {
  heap : gmap ref hval;
  material : gmap objid ref;
  highlightedObjects : list HighlightedObject
}.

Definition restore (m : gmap objid ref) (h : HighlightedObject) : gmap objid ref :=
  <[object h := originalMaterial h]> m.

Definition unhighlightAllObjects (st : State) : State :=
  {| heap := heap st;
     material := fold_left restore (highlightedObjects st) (material st);
     highlightedObjects := [] |}.

Definition matches (locationName : string) (o : Object3D) : bool :=
  (name o =? locationName)%string
  || match userData_location o with
     | Some l => (l =? locationName)%string
     | None => false
     end.

Definition objectsToHighlight (scene : Object3D) (locationName : string)
  : list Object3D :=
  List.filter (matches locationName) (traverse scene)
  ++ (if Js.startsWith locationName "본관동"
      then match getObjectByName "본관동" scene with
           | Some mainBuildingFrame => [mainBuildingFrame]
           | None => []
           end
      else []).

Definition highlightTreatment (m : Material) : Material :=
  match m with
  | MeshStandardMaterial c _ _ => MeshStandardMaterial c "#facc15" 0.6%Q
  | LineBasicMaterial _ => LineBasicMaterial "#fde047"
  | MeshBasicMaterial c => MeshBasicMaterial c
  end.

Definition applyHighlight (h : gmap ref hval) (r : ref) : gmap ref hval :=
  match h !! r with
  | Some (HMaterial m) => <[r := HMaterial (highlightTreatment m)]> h
  | _ => h
  end.

Definition isRecorded (st : State) (o : objid) : bool :=
  existsb (fun h => (object h =? o)%nat) (highlightedObjects st).

(** The body of [objectsToHighlight.forEach]. *)
Definition highlightOne (st : State) (obj : Object3D) : State :=
  if (type obj =? "Group")%string then st
  else
    match material st !! uuid obj with
    | None => st
    | Some original =>
        if isRecorded st (uuid obj) then st
        else
          let '(h1, highlightMaterial) :=
            match heap st !! original with
            | Some (HArray rs) => cloneArray (heap st) rs
            | _ => clone (heap st) original
            end in
          let recorded :=
            highlightedObjects st ++ [mkHighlighted (uuid obj) original] in
          let h2 :=
            match h1 !! highlightMaterial with
            | Some (HArray rs') => fold_left applyHighlight rs' h1
            | _ => applyHighlight h1 highlightMaterial
            end in
          {| heap := h2;
             material := <[uuid obj := highlightMaterial]> (material st);
             highlightedObjects := recorded |}
    end.

(** The pass over the first [k] objects to highlight; the whole pass is
    the one over all of them. *)
Definition highlightPass (objs : list Object3D) (st : State) : State :=
  fold_left highlightOne objs st.

(** [scene] is [sceneRef.current]. *)
Definition highlightObjectsByLocation
  (scene : option Object3D) (locationName : string) (st : State) : State :=
  let st0 := unhighlightAllObjects st in
  match scene with
  | None => st0
  | Some sc => highlightPass (objectsToHighlight sc locationName) st0
  end.

(** The state a pass has reached after [k] iterations of its loop. *)
Definition duringHighlight
  (scene : Object3D) (locationName : string) (st : State) (k : nat) : State :=
  highlightPass (firstn k (objectsToHighlight scene locationName))
                (unhighlightAllObjects st).

Definition recordedObjects (st : State) : list objid :=
  map object (highlightedObjects st).

End Highlight.

(* ===================================================================== *)
(** ** Picking and the tooltip *)
(* ===================================================================== *)

Module Picking.

Record TooltipContent := mkContent {
  date : string;
  cause : string
}.

Record TooltipData := mkTooltip {
  x : Z;
  y : Z;
  visible : bool;
  content : TooltipContent
}.

Record MouseEvent := mkEvent {
  clientX : Z;
  clientY : Z
}.

(** An object the ray hit, with its [userData.incident]. *)
Record Hit := mkHit {
  hitObject : Three.objid;
  userData_incident : option Incident.t
}.

(** [hoveredObject] of the handler's closure, and the tooltip state. *)
Record State := mkState {
  hoveredObject : option Hit;
  tooltipData : TooltipData
}.

Definition sameObject (h : option Hit) (o : Hit) : bool :=
  match h with
  | Some h' => (hitObject h' =? hitObject o)%nat
  | None => false
  end.

Definition moveTo (event : MouseEvent) (prev : TooltipData) : TooltipData :=
  {| x := clientX event; y := clientY event;
     visible := visible prev; content := content prev |}.

Definition hide (prev : TooltipData) : TooltipData :=
  {| x := x prev; y := y prev; visible := false; content := content prev |}.

(** [intersects] is what the raycaster returns for the pointer position,
    nearest hit first. *)
Definition onMouseMove
  (selectedIncident : option Incident.t) (intersects : list Hit)
  (event : MouseEvent) (st : State) : State :=
  match selectedIncident with
  | Some _ => st
  | None =>
      match intersects with
      | firstIntersect :: _ =>
          let st1 :=
            if negb (sameObject (hoveredObject st) firstIntersect)
            then
              match userData_incident firstIntersect with
              | Some incident =>
                  {| hoveredObject := Some firstIntersect;
                     tooltipData :=
                       {| x := clientX event; y := clientY event;
                          visible := true;
                          content := mkContent (Incident.date incident)
                                               (Incident.cause incident) |} |}
              | None =>
                  {| hoveredObject := Some firstIntersect;
                     tooltipData := tooltipData st |}
              end
            else st in
          {| hoveredObject := hoveredObject st1;
             tooltipData := moveTo event (tooltipData st1) |}
      | [] =>
          match hoveredObject st with
          | Some _ =>
              {| hoveredObject := None; tooltipData := hide (tooltipData st) |}
          | None => st
          end
      end
  end.

End Picking.

(* ===================================================================== *)
(** ** Incident visualisation *)
(* ===================================================================== *)

Module Overlay.
Import Registry.

(** One entry of [mainBuildingAggregated]. *)
Record Aggregate := mkAggregate {
  count : Js.number;
  latestIncident : Incident.t
}.

(** The accumulator of the reduction is an object used as a map; its keys
    are enumerated in the order in which they were added. *)
Fixpoint get (acc : list (string * Aggregate)) (k : string) : option Aggregate :=
  match acc with
  | [] => None
  | (k', v) :: acc' => if (k' =? k)%string then Some v else get acc' k
  end.

Fixpoint set (acc : list (string * Aggregate)) (k : string) (v : Aggregate)
  : list (string * Aggregate) :=
  match acc with
  | [] => [(k, v)]
  | (k', v') :: acc' =>
      if (k' =? k)%string then (k, v) :: acc' else (k', v') :: set acc' k v
  end.

(** The callback of [incidents.reduce]: for an incident of the main
    building, the entry of its location (a new one with count 0 and this
    incident as the latest, if there is none) gets the incident's count
    added, and the incident becomes the latest one if its date is later
    than that of the latest so far. *)
Definition reducer (acc : list (string * Aggregate)) (incident : Incident.t)
  : list (string * Aggregate) :=
  let location := Incident.location incident in
  if Js.startsWith location mainBuilding then
    let entry :=
      match get acc location with
      | None => mkAggregate (Js.Finite 0) incident
      | Some e => e
      end in
    let entry :=
      mkAggregate (Js.add (count entry) (Js.Finite (Incident.count incident)))
                  (latestIncident entry) in
    let entry :=
      if Js.gt (Incident.time incident) (Incident.time (latestIncident entry))
      then mkAggregate (count entry) incident
      else entry in
    set acc location entry
  else acc.

Definition mainBuildingAggregated (incidents : list Incident.t)
  : list (string * Aggregate) :=
  fold_left reducer incidents [].

(** What a marker or label element shows: the text of a marker, or the
    two interpolated parts of a label's markup,
    [<span class=text-xs>shortName</span>: count]. *)
Inductive Content :=
  | textContent (text : string)
  | innerHTML (shortName count : string).

Record CSS2DObject := mkCSS2DObject {
  className : string;
  content : Content;
  position : vec3;
  userData_incident : Incident.t;
  (** the incident the click listener passes to [handleIncidentSelect] *)
  onClick : Incident.t
}.

Record Mesh := mkMesh {
  mesh_size : vec3;
  mesh_color : string;
  mesh_position : vec3;
  mesh_location : string
}.

Inductive Child :=
  | MeshChild (m : Mesh)
  | LabelChild (l : CSS2DObject).

Definition markerClass (isHighlighted : bool) : string :=
  if isHighlighted then "marker highlighted-marker" else "marker".

Definition isHighlightedId (id : Z) (highlightedIncidentId : option Z) : bool :=
  match highlightedIncidentId with
  | Some h => id =? h
  | None => false
  end.

Definition shortNameOf (location : string) : string :=
  match nth_error (Js.split location " - ") 1 with
  | Some s => s
  | None => "undefined"
  end.

Definition labelY : Q :=
  (vy mainBuildingPosition + vy mainBuildingSize / 2 + 3)%Q.

(** The body of the loop over the keys of [mainBuildingAggregated]: the
    objects added to the main-building group, and the ones among them that
    are registered as interactive. *)
Definition mainBuildingEntry
  (highlightedIncidentId : option Z) (location : string) (data : Aggregate)
  : list Child * list CSS2DObject :=
  match lookupParts mainBuildingParts location with
  | None => ([], [])
  | Some parts =>
      let meshes :=
        map (fun part =>
               MeshChild (mkMesh (part_size part) (part_color part)
                                 (part_position part) location)) parts in
      match findFacility location with
      | Some facility =>
          let isHighlighted :=
            isHighlightedId (Incident.id (latestIncident data))
                            highlightedIncidentId in
          let label :=
            mkCSS2DObject
              (markerClass isHighlighted)
              (innerHTML (shortNameOf location) (Js.toString (count data)))
              (vx (Facility.position facility), labelY,
               vz (Facility.position facility))
              (latestIncident data)
              (latestIncident data) in
          (meshes ++ [LabelChild label], [label])
      | None => (meshes, [])
      end
  end.

Definition markerY (facility : Facility.t) : Q :=
  if (Facility.name facility =? gymnasium)%string
  then (vy (Facility.size facility) + 2)%Q
  else
    match Facility.type facility with
    | Facility.box =>
        (vy (Facility.position facility) + vy (Facility.size facility) / 2 + 3)%Q
    | Facility.plane => (vy (Facility.position facility) + 3)%Q
    end.

(** The body of [incidents.forEach]: the marker it adds, if any. *)
Definition incidentMarker
  (highlightedIncidentId : option Z) (incident : Incident.t)
  : option CSS2DObject :=
  if Js.startsWith (Incident.location incident) mainBuilding then None
  else
    match findFacility (Incident.location incident) with
    | None => None
    | Some facility =>
        Some (mkCSS2DObject
                (markerClass
                   (isHighlightedId (Incident.id incident) highlightedIncidentId))
                (textContent
                   (Js.toString (Js.Finite (Incident.count incident))))
                (vx (Facility.position facility), markerY facility,
                 vz (Facility.position facility))
                incident
                incident)
    end.

Fixpoint incidentMarkers
  (highlightedIncidentId : option Z) (incidents : list Incident.t)
  : list CSS2DObject :=
  match incidents with
  | [] => []
  | incident :: rest =>
      match incidentMarker highlightedIncidentId incident with
      | Some marker => marker :: incidentMarkers highlightedIncidentId rest
      | None => incidentMarkers highlightedIncidentId rest
      end
  end.

(** The two overlay groups and [interactiveObjectsRef.current] after the
    effect has run.  Both groups are emptied first, so the result depends
    on the store and the highlighted id only. *)
Record Groups := mkGroups {
  incidentMarkersGroup : list CSS2DObject;
  mainBuildingIncidentsGroup : list Child;
  interactiveObjects : list CSS2DObject
}.

Definition synchronize
  (incidents : list Incident.t) (highlightedIncidentId : option Z) : Groups :=
  let entries :=
    map (fun kv => mainBuildingEntry highlightedIncidentId (fst kv) (snd kv))
        (mainBuildingAggregated incidents) in
  let markers := incidentMarkers highlightedIncidentId incidents in
  {| incidentMarkersGroup := markers;
     mainBuildingIncidentsGroup := flat_map fst entries;
     interactiveObjects := flat_map snd entries ++ markers |}.

(** *** Reading the overlay *)

Definition labelsOf (cs : list Child) : list CSS2DObject :=
  flat_map (fun c => match c with
                     | LabelChild l => [l]
                     | MeshChild _ => []
                     end) cs.

(** Every marker and label of the overlay. *)
Definition shown (g : Groups) : list CSS2DObject :=
  labelsOf (mainBuildingIncidentsGroup g) ++ incidentMarkersGroup g.

(** The count an element displays.  The statements below concern counts
    whose text is a plain decimal; any other text counts as 0 here. *)
Definition displayedCount (o : CSS2DObject) : Z :=
  let text := match content o with
              | textContent t => t
              | innerHTML _ c => c
              end in
  match Js.shownNumber text with
  | Some n => n
  | None => 0
  end.

(** An element is displayed at a facility when it stands above the
    facility's place on the ground. *)
Definition displayedAt (facility : Facility.t) (o : CSS2DObject) : bool :=
  Qeq_bool (vx (position o)) (vx (Facility.position facility))
  && Qeq_bool (vz (position o)) (vz (Facility.position facility)).

Definition sumZ (l : list Z) : Z := fold_right Z.add 0 l.

Definition displayedTotal (g : Groups) (facility : Facility.t) : Z :=
  sumZ (map displayedCount (List.filter (displayedAt facility) (shown g))).

Definition storedAt (location : string) (incidents : list Incident.t)
  : list Incident.t :=
  List.filter (fun i => (Incident.location i =? location)%string) incidents.

Definition storedTotal (incidents : list Incident.t) (location : string) : Z :=
  sumZ (map Incident.count (storedAt location incidents)).

End Overlay.

(* ===================================================================== *)
(** ** The incident store *)
(* ===================================================================== *)

Module Store.

(** The submitted form.  [count] is the integer [parseInt] reads from the
    count field, a required number input. *)
Record FormData := mkFormData {
  date : string;
  location : string;
  count : Z;
  cause : string
}.

(** [now] is the value of [Date.now()] at the submission. *)
Definition handleAddIncident
  (now : Z) (formData : FormData) (prev : list Incident.t) : list Incident.t :=
  prev ++ [Incident.make now (date formData) (location formData)
                         (count formData) (cause formData)].

(** The stores the handler can produce from the initial, empty one. *)
Inductive reachable : list Incident.t -> Prop :=
  | reach_initial : reachable []
  | reach_submit now formData incidents :
      reachable incidents ->
      reachable (handleAddIncident now formData incidents).

(** The store after a sequence of submissions, oldest first. *)
Definition submitAll (submissions : list (Z * FormData)) : list Incident.t :=
  fold_left (fun s sub => handleAddIncident (fst sub) (snd sub) s) submissions [].

Definition ids (incidents : list Incident.t) : list Z :=
  map Incident.id incidents.

End Store.

(* ===================================================================== *)
(** ** The incident list *)
(* ===================================================================== *)

Module Panel.

Definition byDateDescending (a b : Incident.t) : option Z :=
  Js.sub (Incident.time b) (Incident.time a).

Definition sortedIncidents (incidents : list Incident.t) : list Incident.t :=
  Js.sort byDateDescending incidents.

(** One entry of the list, in the order of its markup; the date line is
    formatted by the locale and is left out. *)
Record Entry := mkEntry {
  key : Z;
  onClick : Incident.t;
  selectedStyle : bool;
  locationLine : string;
  causeLine : string;
  countBadge : Z
}.

Definition renderEntry (highlightedIncidentId : option Z) (incident : Incident.t)
  : Entry :=
  {| key := Incident.id incident;
     onClick := incident;
     selectedStyle :=
       Overlay.isHighlightedId (Incident.id incident) highlightedIncidentId;
     locationLine := Incident.location incident;
     causeLine := Text.truncate (Incident.cause incident) 25;
     countBadge := Incident.count incident |}.

Definition incidentList
  (incidents : list Incident.t) (highlightedIncidentId : option Z) : list Entry :=
  map (renderEntry highlightedIncidentId) (sortedIncidents incidents).

End Panel.

(* ===================================================================== *)
(** ** Building the scene *)
(* ===================================================================== *)

(** The scene effect and [createGymnasium], as far as the scene graph
    goes: which objects are created, in which order, under which parent,
    with which name, type, location tag and material.  Geometry, placement
    and lighting parameters play no part in picking by name or tag and are
    left out.  Objects get consecutive identities in the order in which
    the source creates them. *)

Module Scene.
Import Three Registry.

Record World := mkWorld {
  nextId : objid;
  heap : gmap ref hval;
  material : gmap objid ref
}.

Definition Build (A : Type) : Type := World -> A * World.

Definition ret {A : Type} (a : A) : Build A := fun w => (a, w).

Definition bind {A B : Type} (c : Build A) (k : A -> Build B) : Build B :=
  fun w => let '(a, w') := c w in k a w'.

Notation "'let!' x ':=' c 'in' k" := (bind c (fun x => k))
  (at level 10, x name, c at level 100, k at level 200, only parsing).

(** [new THREE.MeshStandardMaterial(...)] and the like. *)
Definition newMaterial (m : Material) : Build ref :=
  fun w =>
    let '(h, r) := alloc (heap w) (HMaterial m) in
    (r, mkWorld (nextId w) h (material w)).

(** An object without a material: a group, a light, a label. *)
Definition newObject (type : string) : Build Object3D :=
  fun w =>
    (mkObject (nextId w) "" type None [],
     mkWorld (S (nextId w)) (heap w) (material w)).

(** [new THREE.Mesh(geometry, material)], [new THREE.LineSegments(...)]. *)
Definition newRenderable (type : string) (mat : ref) : Build Object3D :=
  fun w =>
    (mkObject (nextId w) "" type None [],
     mkWorld (S (nextId w)) (heap w) (<[nextId w := mat]> (material w))).

Definition newMesh (mat : ref) : Build Object3D := newRenderable "Mesh" mat.

(** [parent.add(child)] *)
Definition add (parent child : Object3D) : Object3D :=
  mkObject (uuid parent) (name parent) (type parent)
           (userData_location parent) (children parent ++ [child]).

Definition addAll (parent : Object3D) (cs : list Object3D) : Object3D :=
  fold_left add cs parent.

(** [object.name = n] *)
Definition setName (n : string) (o : Object3D) : Object3D :=
  mkObject (uuid o) n (type o) (userData_location o) (children o).

Definition standard (color : string) : Material :=
  MeshStandardMaterial color "#000000" 1.

Definition createHoop : Build Object3D :=
  let! hoopGroup := newObject "Group" in
  let! postMat := newMaterial (standard "#696969") in
  let! post := newMesh postMat in
  let! backboardMat := newMaterial (standard "#ffffff") in
  let! backboard := newMesh backboardMat in
  let! rimMat := newMaterial (standard "#FF4500") in
  let! rim := newMesh rimMat in
  ret (addAll hoopGroup [post; backboard; rim]).

Definition createBench : Build Object3D :=
  let! benchGroup := newObject "Group" in
  let! benchMat := newMaterial (standard "#A0522D") in
  let! seat := newMesh benchMat in
  let! leg1 := newMesh benchMat in
  let! leg2 := newMesh benchMat in
  ret (addAll benchGroup [seat; leg1; leg2]).

(** The callback of [gymGroup.traverse]: every object of the group gets
    the location tag, every mesh the name as well. *)
Fixpoint tagGymnasium (o : Object3D) : Object3D :=
  mkObject (uuid o)
           (if (type o =? "Mesh")%string then gymnasium else name o)
           (type o)
           (Some gymnasium)
           (map tagGymnasium (children o)).

Definition createGymnasium : Build Object3D :=
  let! gymGroup := newObject "Group" in
  let! floorMat := newMaterial (standard "#D2B48C") in
  let! floor := newMesh floorMat in
  let gymGroup := add gymGroup floor in
  let! lineMaterial := newMaterial (LineBasicMaterial "#ffffff") in
  let! circleMat := newMaterial (MeshBasicMaterial "#ffffff") in
  let! centerCircle := newMesh circleMat in
  let gymGroup := add gymGroup centerCircle in
  let! hoop1 := createHoop in
  let gymGroup := add gymGroup hoop1 in
  let! hoop2 := createHoop in
  let gymGroup := add gymGroup hoop2 in
  let! bench1 := createBench in
  let gymGroup := add gymGroup bench1 in
  let! wallMaterial := newMaterial (standard "#ADD8E6") in
  let! wall1 := newMesh wallMaterial in
  let! wall2 := newMesh wallMaterial in
  let! wall3 := newMesh wallMaterial in
  let gymGroup := addAll gymGroup [wall1; wall2; wall3] in
  ret (tagGymnasium gymGroup).

(** The height of a facility's name label. *)
Definition facilityLabelY (f : Facility.t) : Q :=
  if (Facility.name f =? gymnasium)%string
  then (vy (Facility.size f) + 1)%Q
  else
    match Facility.type f with
    | Facility.box => (vy (Facility.position f) + vy (Facility.size f) / 2 + 1)%Q
    | Facility.plane => (vy (Facility.position f) + 1)%Q
    end.

(** The height of the main building's name label. *)
Definition mainBuildingLabelY : Q :=
  (vy mainBuildingPosition + vy mainBuildingSize / 2 + 1)%Q.

Definition otherFacilities : list Facility.t :=
  List.filter (fun f => negb (Js.startsWith (Facility.name f) mainBuilding))
              facilities.

(** The body of [otherFacilities.forEach]: the facility's object and its
    label are added to the scene. *)
Definition addFacility (scene : Object3D) (f : Facility.t) : Build Object3D :=
  let! facilityObject :=
    (if (Facility.name f =? gymnasium)%string
     then createGymnasium
     else
       let! mat := newMaterial (standard (Facility.color f)) in
       newMesh mat) in
  let facilityObject := setName (Facility.name f) facilityObject in
  let scene := add scene facilityObject in
  let! label := newObject "Object3D" in
  ret (add scene label).

Fixpoint addFacilities (scene : Object3D) (fs : list Facility.t) : Build Object3D :=
  match fs with
  | [] => ret scene
  | f :: fs' =>
      let! scene' := addFacility scene f in addFacilities scene' fs'
  end.

(** The scene effect; [incidentMarkers] and [mainBuildingIncidents] are
    the two overlay groups, [incidentMarkersRef.current] and
    [mainBuildingIncidentsRef.current]. *)
Definition setup (incidentMarkers mainBuildingIncidents : Object3D)
  : Build Object3D :=
  let! scene := newObject "Scene" in
  let! camera := newObject "PerspectiveCamera" in
  let! ambientLight := newObject "AmbientLight" in
  let scene := add scene ambientLight in
  let! directionalLight := newObject "DirectionalLight" in
  let scene := add scene directionalLight in
  let! floorMaterial := newMaterial (standard "#475569") in
  let! floor := newMesh floorMaterial in
  let scene := add scene floor in
  let! lineMat := newMaterial (LineBasicMaterial "#ffffff") in
  let! line := newRenderable "LineSegments" lineMat in
  let line := setName mainBuilding line in
  let scene := add scene line in
  let! mainBuildingLabel := newObject "Object3D" in
  let scene := add scene mainBuildingLabel in
  let! scene := addFacilities scene otherFacilities in
  let scene := add scene incidentMarkers in
  ret (add scene mainBuildingIncidents).

(** The world before the effect runs: nothing created yet. *)
Definition empty : World := mkWorld 0%nat ∅ ∅.

Definition built (incidentMarkers mainBuildingIncidents : Object3D) : Object3D :=
  fst (setup incidentMarkers mainBuildingIncidents empty).

(** The materials the effect creates and the [material] properties it
    sets do not depend on the overlay groups. *)
Definition builtWorld : World :=
  snd (setup (mkObject 0%nat "" "Group" None [])
             (mkObject 0%nat "" "Group" None []) empty).

End Scene.

(* ===================================================================== *)
(** ** Selecting an incident and closing the modal *)
(* ===================================================================== *)

Module App.

(** The state of the component: the store, the selection, the picking
    state and the state the highlight callbacks work on.  The scene is
    not part of it: a selection comes with the scene [sceneRef.current]
    holds at the time, and [refs] has the materials of the objects of
    every scene the effect builds; an object [refs] gives no material
    counts as one without a material. *)
Record State := mkState {
  incidents : list Incident.t;
  selectedIncident : option Incident.t;
  highlightedIncidentId : option Z;
  picking : Picking.State;
  refs : Highlight.State
}.

Definition initialTooltip : Picking.TooltipData :=
  Picking.mkTooltip 0 0 false (Picking.mkContent "" "").

Definition initialPicking : Picking.State :=
  Picking.mkState None initialTooltip.

(** The scene effect runs again when the selected incident changes; the
    handler it then registers starts with no hovered object. *)
Definition rerunEffect (rerun : bool) (p : Picking.State) : Picking.State :=
  if rerun then Picking.mkState None (Picking.tooltipData p) else p.

(** [scene] is [sceneRef.current] at the call. *)
Definition handleIncidentSelect
  (scene : option Three.Object3D) (incident : Incident.t) (st : State) : State :=
  {| incidents := incidents st;
     selectedIncident := Some incident;
     highlightedIncidentId := Some (Incident.id incident);
     picking :=
       Picking.mkState (Picking.hoveredObject (picking st))
                       (Picking.hide (Picking.tooltipData (picking st)));
     refs :=
       Highlight.highlightObjectsByLocation
         scene (Incident.location incident) (refs st) |}.

Definition handleCloseModal (st : State) : State :=
  {| incidents := incidents st;
     selectedIncident := None;
     highlightedIncidentId := None;
     picking := picking st;
     refs := Highlight.unhighlightAllObjects (refs st) |}.

(** What happens to the component. *)
Inductive Event :=
  | Submit (now : Z) (formData : Store.FormData)
  | PointerMove (event : Picking.MouseEvent) (intersects : list Picking.Hit)
  | Select (scene : option Three.Object3D) (incident : Incident.t) (rerun : bool)
  | Close (rerun : bool).

Definition step (st : State) (e : Event) : State :=
  match e with
  | Submit now formData =>
      {| incidents := Store.handleAddIncident now formData (incidents st);
         selectedIncident := selectedIncident st;
         highlightedIncidentId := highlightedIncidentId st;
         picking := picking st;
         refs := refs st |}
  | PointerMove event intersects =>
      {| incidents := incidents st;
         selectedIncident := selectedIncident st;
         highlightedIncidentId := highlightedIncidentId st;
         picking :=
           Picking.onMouseMove (selectedIncident st) intersects event (picking st);
         refs := refs st |}
  | Select scene incident rerun =>
      let st' := handleIncidentSelect scene incident st in
      {| incidents := incidents st';
         selectedIncident := selectedIncident st';
         highlightedIncidentId := highlightedIncidentId st';
         picking := rerunEffect rerun (picking st');
         refs := refs st' |}
  | Close rerun =>
      let st' := handleCloseModal st in
      {| incidents := incidents st';
         selectedIncident := selectedIncident st';
         highlightedIncidentId := highlightedIncidentId st';
         picking := rerunEffect rerun (picking st');
         refs := refs st' |}
  end.

Definition run (st : State) (events : list Event) : State :=
  fold_left step events st.

(** The component when it is mounted, over the scene state [world]. *)
Definition initial (world : Highlight.State) : State :=
  mkState [] None None initialPicking world.

End App.

(* ===================================================================== *)
(** ** Statements checked against the code *)
(* ===================================================================== *)

(** [truncate] as described: the string itself when it fits the bound,
    else its first [n - 1] characters and three dots, [n + 2] characters
    in all. *)
Definition truncate_claim (s : string) (n : Z) : Prop :=
  (Z.of_nat (String.length s) <= n -> Text.truncate s n = s)
  /\ (n < Z.of_nat (String.length s) ->
      Text.truncate s n = substring 0 (Z.to_nat (n - 1)) s +:+ "..."
      /\ Z.of_nat (String.length (Text.truncate s n)) = n + 2).

(** Every reachable store has pairwise distinct ids. *)
Definition unique_ids_claim : Prop :=
  forall incidents, Store.reachable incidents -> NoDup (Store.ids incidents).

(** After a pointer move with no incident selected the tooltip stands at
    the pointer, whatever the ray hit. *)
Definition tooltip_tracks_pointer_claim : Prop :=
  forall intersects event st,
    let st' := Picking.onMouseMove None intersects event st in
    Picking.x (Picking.tooltipData st') = Picking.clientX event
    /\ Picking.y (Picking.tooltipData st') = Picking.clientY event.

(** An incident has a valid date when its date text has a time value. *)
Definition hasValidDate (incident : Incident.t) : bool :=
  match Incident.time incident with
  | Some _ => true
  | None => false
  end.

(** The time value of a valid date. *)
Definition ms (incident : Incident.t) : Z :=
  match Incident.time incident with
  | Some t => t
  | None => 0
  end.

(** The identities of the objects a highlight call works on. *)
Definition targetIds (scene : option Three.Object3D) (locationName : string)
  : list Three.objid :=
  match scene with
  | None => []
  | Some sc => map Three.uuid (Highlight.objectsToHighlight sc locationName)
  end.

(** What holds of the state [st] of a pass that began in [st0]: no object
    is recorded twice; the materials present at the beginning are as they
    were; an object that is not recorded has the material it began with; a
    record holds the material its object began with, and the object now
    has a material that did not exist then. *)
Definition passInvariant (st0 st : Highlight.State) : Prop :=
  NoDup (Highlight.recordedObjects st)
  /\ Highlight.heap st0 ⊆ Highlight.heap st
  /\ (forall o, o ∉ Highlight.recordedObjects st ->
                 Highlight.material st !! o = Highlight.material st0 !! o)
  /\ (forall h, h ∈ Highlight.highlightedObjects st ->
        Highlight.material st0 !! Highlight.object h
        = Some (Highlight.originalMaterial h)
        /\ exists r, Highlight.material st !! Highlight.object h = Some r
                     /\ (r ∉ dom (Highlight.heap st0))).

(** Two facilities stand at the same place on the ground. *)
Definition samePlace (g f : Facility.t) : bool :=
  Qeq_bool (vx (Facility.position g)) (vx (Facility.position f))
  && Qeq_bool (vz (Facility.position g)) (vz (Facility.position f)).

(** The sum of the counts displayed at a facility by some elements. *)
Definition total (f : Facility.t) (os : list Overlay.CSS2DObject) : Z :=
  Overlay.sumZ (map Overlay.displayedCount
                    (List.filter (Overlay.displayedAt f) os)).

(** The displayed totals as described: at every registered facility the
    counts displayed add up to the counts stored, whatever the counts. *)
Definition displayed_totals_claim : Prop :=
  forall incidents hid,
    Forall (fun facility =>
              Overlay.displayedTotal (Overlay.synchronize incidents hid) facility
              = Overlay.storedTotal incidents (Facility.name facility))
           Registry.facilities.

(** The integer the text of a number shows. *)
Definition shownValue (n : Js.number) : Z :=
  match Js.shownNumber (Js.toString n) with
  | Some v => v
  | None => 0
  end.

(** The sum of the magnitudes of the stored counts. *)
Definition magnitude (incidents : list Incident.t) : Z :=
  Overlay.sumZ (map (fun i => Z.abs (Incident.count i)) incidents).

(** The entry the reduction writes for an incident of the main building. *)
Definition folded (acc : list (string * Overlay.Aggregate)) (i : Incident.t)
  : Overlay.Aggregate :=
  let entry := match Overlay.get acc (Incident.location i) with
               | None => Overlay.mkAggregate (Js.Finite 0) i
               | Some e => e
               end in
  let sum := Js.add (Overlay.count entry) (Js.Finite (Incident.count i)) in
  if Js.gt (Incident.time i) (Incident.time (Overlay.latestIncident entry))
  then Overlay.mkAggregate sum i
  else Overlay.mkAggregate sum (Overlay.latestIncident entry).

(** Where the latest incident of a key stands among the incidents seen:
    the incidents of the key before it are strictly earlier, the ones
    after it are not later. *)
Definition firstOfLatestDate
  (l : list Incident.t) (k : string) (latest : Incident.t) : Prop :=
  exists before after,
    l = before ++ latest :: after
    /\ Incident.location latest = k
    /\ (forall i, i ∈ before -> Incident.location i = k -> ms i < ms latest)
    /\ (forall i, i ∈ after -> Incident.location i = k -> ms i <= ms latest).

(** The latest incident of a location as described: of the incidents
    stored at the location one of the latest date, and of several of that
    date the one stored last. *)
Definition latestLastWins (location : string) (incidents : list Incident.t)
  : option Incident.t :=
  fold_left
    (fun best i =>
       if (Incident.location i =? location)%string
       then match best with
            | None => Some i
            | Some b => if ms b <=? ms i then Some i else best
            end
       else best)
    incidents None.

Definition latest_last_wins_claim : Prop :=
  forall incidents location,
    forallb hasValidDate incidents = true ->
    Js.startsWith location Registry.mainBuilding = true ->
    option_map Overlay.latestIncident
               (Overlay.get (Overlay.mainBuildingAggregated incidents) location)
    = latestLastWins location incidents.

(** The order of the incident list: the later date first. *)
Definition laterFirst (a b : Incident.t) : Prop := ms b <= ms a.

(** An object is a target worth recording: it matches the location, is
    not a group, and the scene effect gave it a material. *)
Definition builtTarget (location : string) (o : Three.Object3D) : bool :=
  Highlight.matches location o
  && negb (Three.type o =? "Group")%string
  && match Scene.material Scene.builtWorld !! Three.uuid o with
     | Some _ => true
     | None => false
     end.

(** A sequence of pointer moves, each with the incident selected at the
    time and the hits of its ray, handled one after the other. *)
Definition moveAll
  (moves : list (option Incident.t * list Picking.Hit * Picking.MouseEvent))
  (st : Picking.State) : Picking.State :=
  fold_left
    (fun s m => Picking.onMouseMove (fst (fst m)) (snd (fst m)) (snd m) s)
    moves st.

(** The objects a move hits all carry an incident, as markers and labels
    do. *)
Definition taggedMove
  (m : option Incident.t * list Picking.Hit * Picking.MouseEvent) : bool :=
  forallb (fun h => match Picking.userData_incident h with
                    | Some _ => true
                    | None => false
                    end) (snd (fst m)).

(** A visible tooltip shows the date and cause of the incident of the
    hovered object. *)
Definition showsHovered (st : Picking.State) : Prop :=
  Picking.visible (Picking.tooltipData st) = true ->
  exists hit incident,
    Picking.hoveredObject st = Some hit
    /\ Picking.userData_incident hit = Some incident
    /\ Picking.content (Picking.tooltipData st)
       = Picking.mkContent (Incident.date incident) (Incident.cause incident).

(** An incident that gets a marker of its own. *)
Definition hasMarker (i : Incident.t) : bool :=
  negb (Js.startsWith (Incident.location i) Registry.mainBuilding)
  && match Registry.findFacility (Incident.location i) with
     | Some _ => true
     | None => false
     end.

(** The incident a submission stores. *)
Definition submitted (sub : Z * Store.FormData) : Incident.t :=
  Incident.make (fst sub) (Store.date (snd sub)) (Store.location (snd sub))
                (Store.count (snd sub)) (Store.cause (snd sub)).

(** What holds of the component whatever has happened to it. *)
Definition selectionInvariant (st : App.State) : Prop :=
  (App.selectedIncident st = None ->
   App.highlightedIncidentId st = None
   /\ Highlight.highlightedObjects (App.refs st) = [])
  /\ (forall i, App.selectedIncident st = Some i ->
                App.highlightedIncidentId st = Some (Incident.id i))
  /\ (Picking.visible (Picking.tooltipData (App.picking st)) = true ->
      App.selectedIncident st = None)
  /\ NoDup (Highlight.recordedObjects (App.refs st))
  /\ Store.reachable (App.incidents st).

(** The store without the incidents of one location. *)
Definition withoutLocation (location : string) (incidents : list Incident.t)
  : list Incident.t :=
  List.filter (fun i => negb (Incident.location i =? location)%string) incidents.

(** The entries of the aggregation under another key. *)
Definition keyOther (location : string) (kv : string * Overlay.Aggregate) : bool :=
  negb (fst kv =? location)%string.


(** *** Sample data *)

Module Sample.

Definition scene : Three.Object3D :=
  Three.mkObject 0%nat "" "Scene" None
    [ Three.mkObject 1%nat "본관동" "LineSegments" None [];
      Three.mkObject 2%nat "체육관" "Group" (Some "체육관")
        [ Three.mkObject 3%nat "체육관" "Mesh" (Some "체육관") [];
          Three.mkObject 4%nat "체육관" "Mesh" (Some "체육관") [] ];
      Three.mkObject 5%nat "창고" "Mesh" None [];
      Three.mkObject 6%nat "" "Group" None
        [ Three.mkObject 7%nat "" "Mesh" (Some "본관동 - 교실") [] ] ].

Definition world : Highlight.State :=
  Highlight.mkState
    (list_to_map
       [ (10%nat, Three.HMaterial (Three.LineBasicMaterial "#ffffff"));
         (11%nat, Three.HMaterial (Three.MeshStandardMaterial "#D2B48C" "#000000" 1));
         (12%nat, Three.HMaterial (Three.MeshStandardMaterial "#A9A9A9" "#000000" 1));
         (13%nat, Three.HMaterial (Three.MeshStandardMaterial "#F59E0B" "#000000" 1)) ])
    (list_to_map [ (1%nat, 10%nat); (3%nat, 11%nat); (4%nat, 11%nat);
                   (5%nat, 12%nat); (7%nat, 13%nat) ])
    [].

Definition slip : Store.FormData :=
  Store.mkFormData "2024-05-01" "체육관" 3 "slip".

Definition sameMillisecond : list Incident.t :=
  Store.handleAddIncident 1714521600000 slip
    (Store.handleAddIncident 1714521600000 slip []).

Definition idle : Picking.State :=
  Picking.mkState None
    (Picking.mkTooltip 0 0 false (Picking.mkContent "" "")).

Definition dated (id : Z) (date : string) : Incident.t :=
  Incident.make id date "운동장" 1 "fall".

Definition sameDate : list Incident.t :=
  [Incident.make 1 "2024-05-01" "본관동 - 교실" 2 "trip";
   Incident.make 2 "2024-05-01" "본관동 - 교실" 5 "fall"].

(** Three incidents of the classrooms, the first with count [2 ^ 53]. *)
Definition largeCounts : list Incident.t :=
  [Incident.make 1 "2024-05-01" "본관동 - 교실" 9007199254740992 "a";
   Incident.make 2 "2024-05-02" "본관동 - 교실" 1 "b";
   Incident.make 3 "2024-05-03" "본관동 - 교실" 1 "c"].

Definition inGymnasium : Incident.t :=
  Incident.make 3 "2024-05-01" "체육관" 3 "slip".

Definition elsewhere : Incident.t :=
  Incident.make 4 "2024-05-02" "주차장" 1 "bump".

Definition threeDates : list Incident.t :=
  [dated 1 "2024-01-05"; dated 2 "2024-03-01"; dated 3 "2024-02-10"].


Definition emptyGroup : Three.Object3D :=
  Three.mkObject 100%nat "" "Group" None [].

(** The scene state right after the scene effect. *)
Definition builtState : Highlight.State :=
  Highlight.mkState (Scene.heap Scene.builtWorld)
                    (Scene.material Scene.builtWorld) [].

(** An incident filed under the main building itself, which has no parts
    of its own. *)
Definition inMainBuilding : Incident.t :=
  Incident.make 5 "2024-05-03" "본관동" 4 "leak".

End Sample.

(* ===================================================================== *)
(** ** Properties of [truncate] *)
(* ===================================================================== *)

Section TruncateFacts.

Lemma length_append (s1 s2 : string) :
  String.length (s1 +:+ s2) = (String.length s1 + String.length s2)%nat.
Proof. induction s1 as [|c s1 IH]; simpl; [reflexivity | now rewrite IH]. Qed.

Lemma length_substring_0 (s : string) (k : nat) :
  (k <= String.length s)%nat -> String.length (substring 0 k s) = k.
Proof.
  revert k; induction s as [|c s IH]; intros [|k] Hk; simpl in *;
    try reflexivity; try lia.
  rewrite IH; [reflexivity | lia].
Qed.

Lemma slice_first (s : string) (k : Z) :
  0 <= k <= Z.of_nat (String.length s) ->
  Js.slice s 0 k = substring 0 (Z.to_nat k) s.
Proof.
  intros Hk. unfold Js.slice, Js.clampIndex.
  destruct (Z.ltb_spec 0 0) as [?|_]; [lia|].
  destruct (Z.ltb_spec k 0) as [?|_]; [lia|].
  rewrite (Z.min_l 0) by lia. rewrite (Z.min_l k) by lia.
  rewrite Z.sub_0_r, Z.max_l by lia. reflexivity.
Qed.

(** C10 fails for a bound below one: with [n = 0] the slice ends one
    character before the end of the string instead of being empty. *)
Lemma truncate_zero_bound_counterexample : ~ truncate_claim "abc" 0.
Proof.
  intros [_ H]. destruct H as [_ H]; [vm_compute; reflexivity|].
  vm_compute in H. discriminate H.
Qed.

(** C10 (amended): for every string [s] and bound [n >= 1], [truncate s n]
    is [s] when [s] has at most [n] characters, and otherwise the first
    [n - 1] characters of [s] followed by three dots, [n + 2] characters in
    all; an entry of the incident list shows the cause truncated with
    [n = 25]. *)
Theorem truncate_spec (s : string) (n : Z) (hid : option Z) (incident : Incident.t) :
  1 <= n ->
  truncate_claim s n
  /\ Panel.causeLine (Panel.renderEntry hid incident)
     = Text.truncate (Incident.cause incident) 25.
Proof.
  intros Hn. split; [|reflexivity].
  unfold truncate_claim, Text.truncate. split.
  - intros Hle. destruct (Z.gtb_spec (Z.of_nat (String.length s)) n); [lia|reflexivity].
  - intros Hlt. destruct (Z.gtb_spec (Z.of_nat (String.length s)) n); [|lia].
    rewrite slice_first by lia. split; [reflexivity|].
    rewrite length_append, length_substring_0 by lia. simpl. lia.
Qed.

Lemma truncate_spec_witness :
  truncate_claim "abcdef" 3
  /\ Panel.causeLine (Panel.renderEntry None (Incident.make 1 "2024-05-01" "체육관" 3 "slip"))
     = Text.truncate "slip" 25.
Proof.
  apply (truncate_spec "abcdef" 3 None (Incident.make 1 "2024-05-01" "체육관" 3 "slip")).
  lia.
Defined.

End TruncateFacts.

(* ===================================================================== *)
(** ** Highlighting *)
(* ===================================================================== *)

Section HighlightFacts.
Import Three Highlight.

(** *** The heap *)

Lemma alloc_spec (h h' : gmap ref hval) (v : hval) (r : ref) :
  alloc h v = (h', r) -> (r ∉ dom h) /\ h' = <[r := v]> h /\ h ⊆ h'.
Proof.
  unfold alloc. intros H. injection H as <- <-.
  assert (Hfresh : fresh (dom h) ∉ dom h) by apply is_fresh.
  split; [exact Hfresh|]. split; [reflexivity|].
  apply insert_subseteq. now apply not_elem_of_dom.
Qed.

Lemma clone_spec (h h' : gmap ref hval) (r0 r : ref) :
  clone h r0 = (h', r) ->
  (r ∉ dom h) /\ h ⊆ h' /\ h' !! r = Some (default blank (h !! r0)).
Proof.
  unfold clone. intros H. apply alloc_spec in H as (Hr & -> & Hsub).
  split; [exact Hr|]. split; [exact Hsub|]. apply lookup_insert_eq.
Qed.

Lemma cloneEach_spec (rs : list ref) (h h' : gmap ref hval) (rs' : list ref) :
  cloneEach h rs = (h', rs') -> h ⊆ h' /\ Forall (fun r => r ∉ dom h) rs'.
Proof.
  revert h h' rs'. induction rs as [|r0 rs IH]; intros h h' rs'; cbn [cloneEach].
  - intros H. injection H as <- <-. split; [reflexivity | constructor].
  - destruct (clone h r0) as [h1 r1] eqn:Hc.
    destruct (cloneEach h1 rs) as [h2 rs2] eqn:He.
    intros H. injection H as <- <-.
    apply clone_spec in Hc as (Hr1 & Hsub1 & _).
    apply IH in He as (Hsub2 & Hall).
    split; [now transitivity h1|]. constructor; [exact Hr1|].
    eapply Forall_impl; [exact Hall|]. intros r Hr Hin.
    apply Hr. eapply subseteq_dom; eauto.
Qed.

Lemma cloneArray_spec (h h' : gmap ref hval) (rs : list ref) (r : ref) :
  cloneArray h rs = (h', r) ->
  (r ∉ dom h) /\ h ⊆ h'
  /\ exists rs', h' !! r = Some (HArray rs') /\ Forall (fun r' => r' ∉ dom h) rs'.
Proof.
  unfold cloneArray. destruct (cloneEach h rs) as [h1 rs'] eqn:He.
  intros H. apply alloc_spec in H as (Hr & -> & Hsub).
  apply cloneEach_spec in He as (Hsub1 & Hall).
  split; [|split].
  - intros Hin. apply Hr. eapply subseteq_dom; eauto.
  - now transitivity h1.
  - exists rs'. split; [apply lookup_insert_eq | exact Hall].
Qed.

Lemma applyHighlight_preserves (h0 h : gmap ref hval) (r : ref) :
  r ∉ dom h0 -> h0 ⊆ h -> h0 ⊆ applyHighlight h r.
Proof.
  intros Hr Hsub. unfold applyHighlight.
  destruct (h !! r) as [[m|rs]|]; try exact Hsub.
  apply insert_subseteq_r; [now apply not_elem_of_dom | exact Hsub].
Qed.

Lemma applyHighlight_each_preserves (rs : list ref) (h0 h : gmap ref hval) :
  Forall (fun r => r ∉ dom h0) rs -> h0 ⊆ h -> h0 ⊆ fold_left applyHighlight rs h.
Proof.
  revert h. induction rs as [|r rs IH]; intros h Hall Hsub; simpl; [exact Hsub|].
  apply Forall_cons in Hall as [Hr Hall].
  apply IH; [exact Hall | now apply applyHighlight_preserves].
Qed.

(** *** One iteration of the loop *)

Lemma isRecorded_false (st : State) (o : objid) :
  isRecorded st o = false <-> o ∉ recordedObjects st.
Proof.
  unfold isRecorded, recordedObjects.
  induction (highlightedObjects st) as [|h l IH]; simpl.
  - split; [intros _; apply not_elem_of_nil | reflexivity].
  - rewrite orb_false_iff, IH, not_elem_of_cons, Nat.eqb_neq. intuition.
Qed.

(** An iteration either leaves the state alone or records one object that
    was not recorded, under a material that did not exist before. *)
Lemma highlightOne_cases (st : State) (obj : Object3D) :
  highlightOne st obj = st
  \/ exists original highlightMaterial h2,
       material st !! uuid obj = Some original
       /\ (uuid obj ∉ recordedObjects st)
       /\ (highlightMaterial ∉ dom (heap st))
       /\ heap st ⊆ h2
       /\ highlightOne st obj
          = {| heap := h2;
               material := <[uuid obj := highlightMaterial]> (material st);
               highlightedObjects :=
                 highlightedObjects st ++ [mkHighlighted (uuid obj) original] |}.
Proof.
  unfold highlightOne.
  destruct (type obj =? "Group")%string; [now left|].
  destruct (material st !! uuid obj) as [original|] eqn:Hm; [|now left].
  destruct (isRecorded st (uuid obj)) eqn:Hrec; [now left|].
  apply isRecorded_false in Hrec. right.
  destruct (heap st !! original) as [[m|rs]|] eqn:Ho.
  - destruct (clone (heap st) original) as [h1 hl] eqn:Hc.
    apply clone_spec in Hc as (Hfresh & Hsub & Hl).
    rewrite Hl, Ho. cbn [default].
    exists original, hl, (applyHighlight h1 hl).
    repeat split; auto. now apply applyHighlight_preserves.
  - destruct (cloneArray (heap st) rs) as [h1 hl] eqn:Hc.
    apply cloneArray_spec in Hc as (Hfresh & Hsub & rs' & Hl & Hall).
    rewrite Hl.
    exists original, hl, (fold_left applyHighlight rs' h1).
    repeat split; auto. now apply applyHighlight_each_preserves.
  - destruct (clone (heap st) original) as [h1 hl] eqn:Hc.
    apply clone_spec in Hc as (Hfresh & Hsub & Hl).
    rewrite Hl, Ho. cbn [default blank].
    exists original, hl, (applyHighlight h1 hl).
    repeat split; auto. now apply applyHighlight_preserves.
Qed.

(** *** Restoring *)

Lemma restore_all_other (recs : list HighlightedObject) (m : gmap objid ref) (o : objid) :
  o ∉ map object recs -> fold_left restore recs m !! o = m !! o.
Proof.
  revert m. induction recs as [|h recs IH]; intros m Ho; simpl; [reflexivity|].
  simpl in Ho. apply not_elem_of_cons in Ho as [Hne Ho].
  rewrite (IH _ Ho). unfold restore. now apply lookup_insert_ne.
Qed.

Lemma restore_all_insert (recs : list HighlightedObject) (m : gmap objid ref)
      (o : objid) (r : ref) :
  o ∉ map object recs ->
  fold_left restore recs (<[o := r]> m) = <[o := r]> (fold_left restore recs m).
Proof.
  revert m. induction recs as [|h recs IH]; intros m Ho; simpl; [reflexivity|].
  simpl in Ho. apply not_elem_of_cons in Ho as [Hne Ho].
  unfold restore at 2 4. rewrite insert_insert_ne by congruence.
  now apply IH.
Qed.

(** The materials that [unhighlightAllObjects] would restore are the same
    before and after an iteration. *)
Lemma restored_highlightOne (st : State) (obj : Object3D) :
  material (unhighlightAllObjects (highlightOne st obj))
  = material (unhighlightAllObjects st).
Proof.
  destruct (highlightOne_cases st obj)
    as [->|(original & hl & h2 & Hm & Hrec & _ & _ & ->)]; [reflexivity|].
  unfold unhighlightAllObjects. cbn [material highlightedObjects].
  rewrite fold_left_app. cbn [fold_left]. unfold restore at 1. cbn [object originalMaterial].
  rewrite restore_all_insert by exact Hrec.
  rewrite insert_insert_eq. apply insert_id.
  now rewrite restore_all_other.
Qed.

Lemma restored_highlightPass (objs : list Object3D) (st : State) :
  material (unhighlightAllObjects (highlightPass objs st))
  = material (unhighlightAllObjects st).
Proof.
  revert st. induction objs as [|obj objs IH]; intros st; [reflexivity|].
  unfold highlightPass in *. cbn [fold_left]. rewrite IH.
  apply restored_highlightOne.
Qed.

Lemma heap_highlightPass (objs : list Object3D) (st : State) :
  heap st ⊆ heap (highlightPass objs st).
Proof.
  revert st. induction objs as [|obj objs IH]; intros st; [reflexivity|].
  unfold highlightPass in *. cbn [fold_left].
  transitivity (heap (highlightOne st obj)); [|apply IH].
  destruct (highlightOne_cases st obj)
    as [->|(original & hl & h2 & _ & _ & _ & Hsub & ->)]; [reflexivity|exact Hsub].
Qed.

Lemma restored_highlightObjectsByLocation scene locationName (st : State) :
  material (unhighlightAllObjects (highlightObjectsByLocation scene locationName st))
  = material (unhighlightAllObjects st).
Proof.
  unfold highlightObjectsByLocation. destruct scene as [sc|].
  - now rewrite restored_highlightPass.
  - reflexivity.
Qed.

(** C3: for every scene, location name and state, after
    [highlightObjectsByLocation] and then [unhighlightAllObjects] the
    record set is empty and every object has, as the same reference, the
    material it had before highlighting: the material saved for it if it
    was recorded as highlighted when the call began, and otherwise, in
    particular whenever nothing was highlighted then, the material it had
    before the call.  The materials that existed before are unchanged, and
    a further [unhighlightAllObjects] does nothing. *)
Theorem highlight_then_unhighlight
  (scene : option Object3D) (locationName : string) (st : State) :
  let st' := unhighlightAllObjects
               (highlightObjectsByLocation scene locationName st) in
  highlightedObjects st' = []
  /\ material st' = material (unhighlightAllObjects st)
  /\ (highlightedObjects st = [] -> material st' = material st)
  /\ heap st ⊆ heap st'
  /\ unhighlightAllObjects st' = st'.
Proof.
  cbn zeta. split; [reflexivity|].
  split; [apply restored_highlightObjectsByLocation|].
  split; [|split].
  - intros Hidle. rewrite restored_highlightObjectsByLocation.
    unfold unhighlightAllObjects. cbn [material]. now rewrite Hidle.
  - unfold highlightObjectsByLocation. destruct scene as [sc|]; [|reflexivity].
    cbn [unhighlightAllObjects heap].
    apply (heap_highlightPass _ (unhighlightAllObjects st)).
  - reflexivity.
Qed.

(** *** The invariant of a pass *)

Lemma passInvariant_start (st0 : State) :
  highlightedObjects st0 = [] -> passInvariant st0 st0.
Proof.
  intros Hidle. unfold passInvariant, recordedObjects. rewrite Hidle.
  split; [apply NoDup_nil_2|]. split; [reflexivity|].
  split; [reflexivity|]. intros h Hh. now apply not_elem_of_nil in Hh.
Qed.

Lemma passInvariant_step (st0 st : State) (obj : Object3D) :
  passInvariant st0 st -> passInvariant st0 (highlightOne st obj).
Proof.
  intros Hinv.
  destruct (highlightOne_cases st obj)
    as [->|(original & hl & h2 & Hm & Hrec & Hfresh & Hsub & ->)];
    [exact Hinv|].
  destruct Hinv as (Hnd & Hheap & Hother & Hrecs).
  unfold passInvariant, recordedObjects in *.
  cbn [heap material highlightedObjects].
  rewrite map_app. cbn [map object].
  split; [|split; [|split]].
  - apply NoDup_app. split; [exact Hnd|].
    split; [|apply NoDup_singleton].
    intros o Ho Ho'. apply list_elem_of_singleton in Ho' as ->. contradiction.
  - now transitivity (heap st).
  - intros o Ho. apply not_elem_of_app in Ho as [Ho Hne].
    rewrite list_elem_of_singleton in Hne.
    rewrite lookup_insert_ne by congruence. now apply Hother.
  - intros h Hh. apply elem_of_app in Hh as [Hh|Hh].
    + destruct (Hrecs h Hh) as (H0 & r & Hr & Hr0). split; [exact H0|].
      exists r. split; [|exact Hr0].
      rewrite lookup_insert_ne; [exact Hr|].
      intros Heq. apply Hrec. rewrite Heq.
      apply list_elem_of_In, in_map, list_elem_of_In, Hh.
    + apply list_elem_of_singleton in Hh as ->. cbn [object originalMaterial].
      split; [now rewrite <- Hother|].
      exists hl. split; [apply lookup_insert_eq|].
      intros Hin. apply Hfresh. eapply subseteq_dom; eauto.
Qed.

Lemma passInvariant_pass (objs : list Object3D) (st0 st : State) :
  passInvariant st0 st -> passInvariant st0 (highlightPass objs st).
Proof.
  revert st. induction objs as [|obj objs IH]; intros st Hinv; [exact Hinv|].
  unfold highlightPass in *. cbn [fold_left].
  apply IH. now apply passInvariant_step.
Qed.

Lemma records_grow (st : State) (obj : Object3D) :
  exists more,
    highlightedObjects (highlightOne st obj) = highlightedObjects st ++ more.
Proof.
  destruct (highlightOne_cases st obj)
    as [->|(original & hl & h2 & _ & _ & _ & _ & ->)].
  - exists []. now rewrite app_nil_r.
  - now eexists.
Qed.

Lemma recorded_pass (objs : list Object3D) (st : State) (o : objid) :
  o ∈ recordedObjects (highlightPass objs st) ->
  o ∈ recordedObjects st \/ o ∈ map uuid objs.
Proof.
  revert st. induction objs as [|obj objs IH]; intros st Ho; [now left|].
  unfold highlightPass in *. cbn [fold_left] in Ho.
  apply IH in Ho as [Ho|Ho].
  - destruct (highlightOne_cases st obj)
      as [Heq|(original & hl & h2 & _ & _ & _ & _ & Heq)];
      rewrite Heq in Ho; [now left|].
    unfold recordedObjects in Ho. cbn [highlightedObjects] in Ho.
    rewrite map_app in Ho. apply elem_of_app in Ho as [Ho|Ho]; [now left|].
    apply list_elem_of_singleton in Ho as ->. right. apply list_elem_of_here.
  - right. now apply list_elem_of_further.
Qed.

Lemma duringHighlight_next scene locationName (st : State) (k : nat) :
  duringHighlight scene locationName st (S k)
  = match objectsToHighlight scene locationName !! k with
    | Some obj => highlightOne (duringHighlight scene locationName st k) obj
    | None => duringHighlight scene locationName st k
    end.
Proof.
  unfold duringHighlight, highlightPass.
  destruct (objectsToHighlight scene locationName !! k) as [obj|] eqn:Hk.
  - rewrite (take_S_r _ _ _ Hk), fold_left_app. reflexivity.
  - apply lookup_ge_None in Hk. rewrite !take_ge by lia. reflexivity.
Qed.

(** C5: at every point of a highlight pass, and so after it, no object
    has two records; a record holds the material its object had when the
    pass began, while the object itself has a material created during the
    pass; and an iteration only ever adds to the records, so that a saved
    material is never replaced.  The pass begins with no record at all. *)
Theorem one_record_per_object
  (scene : Object3D) (locationName : string) (st : State) (k : nat) :
  let st0 := unhighlightAllObjects st in
  let stk := duringHighlight scene locationName st k in
  highlightedObjects (duringHighlight scene locationName st 0) = []
  /\ NoDup (recordedObjects stk)
  /\ (forall h, h ∈ highlightedObjects stk ->
        material st0 !! object h = Some (originalMaterial h)
        /\ exists r, material stk !! object h = Some r /\ (r ∉ dom (heap st0)))
  /\ (exists more,
        highlightedObjects (duringHighlight scene locationName st (S k))
        = highlightedObjects stk ++ more)
  /\ duringHighlight scene locationName st
       (length (objectsToHighlight scene locationName))
     = highlightObjectsByLocation (Some scene) locationName st.
Proof.
  cbn zeta.
  assert (Hinv : passInvariant (unhighlightAllObjects st)
                               (duringHighlight scene locationName st k)).
  { apply passInvariant_pass, passInvariant_start. reflexivity. }
  destruct Hinv as (Hnd & _ & _ & Hrecs).
  split; [reflexivity|]. split; [exact Hnd|]. split; [exact Hrecs|]. split.
  - rewrite duringHighlight_next.
    destruct (objectsToHighlight scene locationName !! k) as [obj|].
    + apply records_grow.
    + exists []. now rewrite app_nil_r.
  - unfold duringHighlight, highlightObjectsByLocation.
    now rewrite firstn_all.
Qed.

(** C4: after [highlightObjectsByLocation] for a location [A] and then
    for a location [B], an object that the second call does not work on,
    in particular one that matches [A] only, has no record and has the
    material it had before highlighting: the second call begins by
    restoring what the first call saved, which is what was to be restored
    before the first call. *)
Theorem second_highlight_clears_first
  (scene : option Object3D) (A B : string) (st : State) (o : objid) :
  o ∉ targetIds scene B ->
  let st1 := highlightObjectsByLocation scene A st in
  let st2 := highlightObjectsByLocation scene B st1 in
  material (unhighlightAllObjects st1) = material (unhighlightAllObjects st)
  /\ (o ∉ recordedObjects st2)
  /\ material st2 !! o = material (unhighlightAllObjects st) !! o
  /\ (highlightedObjects st = [] -> material st2 !! o = material st !! o).
Proof.
  intros Ho. cbn zeta.
  set (st1 := highlightObjectsByLocation scene A st).
  assert (Hrestored : material (unhighlightAllObjects st1)
                      = material (unhighlightAllObjects st))
    by apply restored_highlightObjectsByLocation.
  assert (Hinv : passInvariant (unhighlightAllObjects st1)
                               (highlightObjectsByLocation scene B st1)).
  { unfold highlightObjectsByLocation at 1. destruct scene as [sc|].
    - apply passInvariant_pass, passInvariant_start. reflexivity.
    - apply passInvariant_start. reflexivity. }
  assert (Hnot : o ∉ recordedObjects (highlightObjectsByLocation scene B st1)).
  { unfold highlightObjectsByLocation at 1. destruct scene as [sc|].
    - intros Hin. apply recorded_pass in Hin as [Hin|Hin].
      + now apply not_elem_of_nil in Hin.
      + now apply Ho.
    - apply not_elem_of_nil. }
  destruct Hinv as (_ & _ & Hother & _).
  assert (Hmat : material (highlightObjectsByLocation scene B st1) !! o
                 = material (unhighlightAllObjects st) !! o)
    by (rewrite (Hother o Hnot); now rewrite Hrestored).
  split; [exact Hrestored|]. split; [exact Hnot|]. split; [exact Hmat|].
  intros Hidle. rewrite Hmat. unfold unhighlightAllObjects.
  cbn [material]. now rewrite Hidle.
Qed.

Lemma second_highlight_clears_first_witness :
  let st1 := highlightObjectsByLocation (Some Sample.scene) "창고" Sample.world in
  let st2 := highlightObjectsByLocation (Some Sample.scene) "체육관" st1 in
  material (unhighlightAllObjects st1)
  = material (unhighlightAllObjects Sample.world)
  /\ (5%nat ∉ recordedObjects st2)
  /\ material st2 !! 5%nat = material (unhighlightAllObjects Sample.world) !! 5%nat
  /\ (highlightedObjects Sample.world = [] ->
      material st2 !! 5%nat = material Sample.world !! 5%nat).
Proof.
  apply (second_highlight_clears_first
           (Some Sample.scene) "창고" "체육관" Sample.world 5%nat).
  apply (bool_decide_unpack _). vm_compute. reflexivity.
Defined.

(** Highlighting the main building itself meets its outline twice, in the
    traversal and by name, and records it once. *)
Example outline_recorded_once :
  map uuid (objectsToHighlight Sample.scene "본관동") = [1%nat; 1%nat]
  /\ recordedObjects
       (highlightObjectsByLocation (Some Sample.scene) "본관동" Sample.world)
     = [1%nat].
Proof. split; reflexivity. Qed.

End HighlightFacts.

(* ===================================================================== *)
(** ** The tooltip *)
(* ===================================================================== *)

Section PickingFacts.
Import Picking.

(** C8 fails for a move that hits nothing: the position is not written. *)
Lemma move_without_hit_counterexample : ~ tooltip_tracks_pointer_claim.
Proof.
  intros H. specialize (H [] (mkEvent 100 200) Sample.idle).
  destruct H as [H _]. vm_compute in H. discriminate H.
Qed.

(** C8 (amended): with no incident selected, a pointer move whose ray hits
    at least one interactive object leaves the tooltip at the raw pointer
    coordinates of the event, whether or not the hovered object changed; a
    move whose ray hits nothing leaves the tooltip position as it was. *)
Theorem tooltip_position_after_move
  (firstIntersect : Hit) (others : list Hit) (event : MouseEvent) (st : State) :
  let hit := onMouseMove None (firstIntersect :: others) event st in
  let miss := onMouseMove None [] event st in
  (x (tooltipData hit) = clientX event /\ y (tooltipData hit) = clientY event)
  /\ (x (tooltipData miss) = x (tooltipData st)
      /\ y (tooltipData miss) = y (tooltipData st)).
Proof.
  simpl. split; [split; reflexivity|].
  destruct (hoveredObject st); split; reflexivity.
Qed.

End PickingFacts.

(* ===================================================================== *)
(** ** The overlay *)
(* ===================================================================== *)

Section OverlayFacts.
Import Registry Overlay.

(** *** Numbers and their text *)

Lemma shownNumber_decimal (n : Z) : Js.shownNumber (Js.decimal n) = Some n.
Proof.
  unfold Js.shownNumber, Js.decimal.
  rewrite NilZero.isi.
  - simpl. now rewrite DecimalZ.of_to.
  - destruct n; simpl; try discriminate.
    intros H. injection H as H. now apply DecimalPos.Unsigned.to_uint_nonnil in H.
  - destruct n; simpl; try discriminate.
    intros H. injection H as H. now apply DecimalPos.Unsigned.to_uint_nonnil in H.
Qed.

Lemma roundInteger_safe (z : Z) : Z.abs z <= 2 ^ 53 -> Js.roundInteger z = z.
Proof.
  intros Hz. unfold Js.roundInteger.
  destruct (Z.leb_spec (Z.log2 (Z.abs z) - 52) 0) as [_|Hlog]; [reflexivity|].
  assert (Habs : Z.abs z = 2 ^ 53).
  { destruct (Z.eq_dec (Z.abs z) 0) as [H0|H0];
      [rewrite H0 in Hlog; simpl in Hlog; lia|].
    assert (Hlt : ~ Z.abs z < 2 ^ 53).
    { intros Hlt. apply Z.log2_lt_pow2 in Hlt; lia. }
    lia. }
  assert (Hcases : z = 2 ^ 53 \/ z = - 2 ^ 53) by lia.
  destruct Hcases as [-> | ->]; vm_compute; reflexivity.
Qed.

(** Sums of magnitude up to [2 ^ 53] are exact. *)
Lemma fromInteger_safe (z : Z) : Z.abs z <= 2 ^ 53 -> Js.fromInteger z = Js.Finite z.
Proof.
  intros Hz. unfold Js.fromInteger. rewrite (roundInteger_safe z Hz).
  assert (Hpow : 2 ^ 53 < 2 ^ 1024) by (apply Z.pow_lt_mono_r; lia).
  destruct (Z.geb_spec (Z.abs z) (2 ^ 1024)) as [Hge|_]; [lia|reflexivity].
Qed.

Lemma toString_safe (z : Z) :
  Z.abs z <= 2 ^ 53 -> Js.toString (Js.Finite z) = Js.decimal z.
Proof.
  intros Hz. unfold Js.toString, Js.positiveToString.
  destruct (Z.ltb_spec z 0) as [Hneg|Hpos].
  - destruct (Z.leb_spec (- z) (2 ^ 53)) as [_|H]; [|lia].
    destruct z as [|p|p]; try lia. reflexivity.
  - destruct (Z.leb_spec z (2 ^ 53)) as [_|H]; [reflexivity|lia].
Qed.

Lemma shownValue_safe (z : Z) : Z.abs z <= 2 ^ 53 -> shownValue (Js.Finite z) = z.
Proof.
  intros Hz. unfold shownValue.
  now rewrite (toString_safe z Hz), shownNumber_decimal.
Qed.

(** *** The accumulator *)

Lemma get_set (acc : list (string * Aggregate)) (k k' : string) (v : Aggregate) :
  get (set acc k v) k' = if (k =? k')%string then Some v else get acc k'.
Proof.
  induction acc as [|[k0 v0] acc IH]; simpl.
  - reflexivity.
  - destruct (String.eqb_spec k0 k) as [->|Hk]; simpl.
    + now destruct (String.eqb_spec k k').
    + rewrite IH. destruct (String.eqb_spec k0 k') as [->|Hk'];
        [|reflexivity].
      destruct (String.eqb_spec k k'); [congruence|reflexivity].
Qed.

Lemma keys_set (acc : list (string * Aggregate)) (k x : string) (v : Aggregate) :
  x ∈ map fst (set acc k v) <-> x = k \/ x ∈ map fst acc.
Proof.
  induction acc as [|[k0 v0] acc IH]; simpl.
  - rewrite elem_of_cons. split; intros [H|H]; auto.
  - destruct (String.eqb_spec k0 k) as [->|Hk]; simpl.
    + rewrite !elem_of_cons. tauto.
    + rewrite !elem_of_cons, IH. tauto.
Qed.

Lemma NoDup_keys_set (acc : list (string * Aggregate)) (k : string) (v : Aggregate) :
  NoDup (map fst acc) -> NoDup (map fst (set acc k v)).
Proof.
  induction acc as [|[k0 v0] acc IH]; simpl; intros Hnd.
  - apply NoDup_singleton.
  - apply NoDup_cons in Hnd as [Hk0 Hnd].
    destruct (String.eqb_spec k0 k) as [->|Hk]; simpl.
    + now apply NoDup_cons.
    + apply NoDup_cons. split; [|now apply IH].
      rewrite keys_set. intros [?|?]; [congruence|contradiction].
Qed.

Lemma aggregated_snoc (l : list Incident.t) (i : Incident.t) :
  mainBuildingAggregated (l ++ [i]) = reducer (mainBuildingAggregated l) i.
Proof. unfold mainBuildingAggregated. now rewrite fold_left_app. Qed.

Lemma reducer_other (acc : list (string * Aggregate)) (i : Incident.t) :
  Js.startsWith (Incident.location i) mainBuilding = false -> reducer acc i = acc.
Proof. unfold reducer. now intros ->. Qed.

Lemma NoDup_keys_aggregated (l : list Incident.t) :
  NoDup (map fst (mainBuildingAggregated l)).
Proof.
  induction l as [|i l IH] using rev_ind; [apply NoDup_nil_2|].
  rewrite aggregated_snoc. unfold reducer.
  destruct (Js.startsWith _ _); [now apply NoDup_keys_set | exact IH].
Qed.

Lemma get_reducer (acc : list (string * Aggregate)) (i : Incident.t) (k : string) :
  get (reducer acc i) k
  = if Js.startsWith (Incident.location i) mainBuilding
       && (Incident.location i =? k)%string
    then Some (folded acc i)
    else get acc k.
Proof.
  unfold reducer, folded.
  destruct (Js.startsWith (Incident.location i) mainBuilding); simpl;
    [|reflexivity].
  rewrite get_set. destruct (Incident.location i =? k)%string; [|reflexivity].
  simpl. now destruct (Js.gt _ _).
Qed.

Lemma storedAt_snoc (k : string) (l : list Incident.t) (i : Incident.t) :
  storedAt k (l ++ [i])
  = storedAt k l ++ (if (Incident.location i =? k)%string then [i] else []).
Proof. unfold storedAt. rewrite List.filter_app. reflexivity. Qed.

Lemma sumZ_app (l1 l2 : list Z) : sumZ (l1 ++ l2) = sumZ l1 + sumZ l2.
Proof. unfold sumZ. induction l1; simpl; lia. Qed.

Lemma sumZ_abs_le (l : list Z) : Z.abs (sumZ l) <= sumZ (map Z.abs l).
Proof. unfold sumZ. induction l; simpl; lia. Qed.

Lemma magnitude_snoc (l : list Incident.t) (i : Incident.t) :
  magnitude (l ++ [i]) = magnitude l + Z.abs (Incident.count i).
Proof. unfold magnitude. rewrite map_app, sumZ_app. unfold sumZ. simpl. lia. Qed.

Lemma magnitude_nonneg (l : list Incident.t) : 0 <= magnitude l.
Proof. unfold magnitude, sumZ. induction l; simpl; lia. Qed.

Lemma storedTotal_le_magnitude (l : list Incident.t) (k : string) :
  Z.abs (storedTotal l k) <= magnitude l.
Proof.
  unfold storedTotal, storedAt, magnitude, sumZ.
  induction l as [|i l IH]; simpl; [lia|].
  destruct (Incident.location i =? k)%string; simpl; lia.
Qed.

Lemma count_le_magnitude (l : list Incident.t) (i : Incident.t) :
  i ∈ l -> Z.abs (Incident.count i) <= magnitude l.
Proof.
  unfold magnitude, sumZ. induction l as [|j l IH]; intros Hin.
  - now apply not_elem_of_nil in Hin.
  - apply elem_of_cons in Hin as [->|Hin]; simpl.
    + pose proof (magnitude_nonneg l) as H. unfold magnitude, sumZ in H. lia.
    + specialize (IH Hin). lia.
Qed.

(** There is an entry for a key when the key is of the main building and
    an incident is stored under it. *)
Lemma aggregated_present (l : list Incident.t) (k : string) :
  match get (mainBuildingAggregated l) k with
  | Some _ => Js.startsWith k mainBuilding = true /\ storedAt k l <> []
  | None => Js.startsWith k mainBuilding = false \/ storedAt k l = []
  end.
Proof.
  induction l as [|i l IH] using rev_ind.
  - simpl. now right.
  - rewrite aggregated_snoc, get_reducer, storedAt_snoc.
    destruct (String.eqb_spec (Incident.location i) k) as [Hk|Hk].
    + rewrite Hk. destruct (Js.startsWith k mainBuilding) eqn:Hp; simpl.
      * split; [reflexivity|]. now destruct (storedAt k l).
      * destruct (get (mainBuildingAggregated l) k); [|now left].
        destruct IH as [IH _]. discriminate IH.
    + rewrite andb_false_r. cbn iota. rewrite app_nil_r. exact IH.
Qed.

Lemma folded_count (acc : list (string * Aggregate)) (i : Incident.t) :
  count (folded acc i)
  = Js.add (count (match get acc (Incident.location i) with
                   | None => mkAggregate (Js.Finite 0) i
                   | Some e => e
                   end))
           (Js.Finite (Incident.count i)).
Proof. unfold folded. now destruct (Js.gt _ _). Qed.

(** The summed count of a key is the sum over the incidents stored under
    exactly that key, as long as the magnitudes of the stored counts add
    up to at most [2 ^ 53]. *)
Lemma aggregated_count (l : list Incident.t) (k : string) (e : Aggregate) :
  magnitude l <= 2 ^ 53 ->
  get (mainBuildingAggregated l) k = Some e ->
  count e = Js.Finite (storedTotal l k).
Proof.
  revert e. induction l as [|i l IH] using rev_ind; intros e Hm Hg.
  - discriminate.
  - rewrite magnitude_snoc in Hm.
    assert (Hml : magnitude l <= 2 ^ 53) by lia.
    rewrite aggregated_snoc, get_reducer in Hg.
    unfold storedTotal in *. rewrite storedAt_snoc, map_app, sumZ_app.
    destruct (String.eqb_spec (Incident.location i) k) as [Hk|Hk].
    + destruct (Js.startsWith (Incident.location i) mainBuilding) eqn:Hp;
        simpl in Hg.
      * injection Hg as <-. rewrite folded_count, Hk.
        pose proof (storedTotal_le_magnitude l k) as Hle.
        unfold storedTotal in Hle.
        pose proof (aggregated_present l k) as Hpres.
        destruct (get (mainBuildingAggregated l) k) as [e0|] eqn:Hg0.
        -- rewrite (IH e0 Hml eq_refl). cbn [Js.add].
           rewrite fromInteger_safe; [|unfold sumZ in *; simpl; lia].
           f_equal. unfold sumZ. simpl. lia.
        -- destruct Hpres as [Hpres|Hpres]; [rewrite <- Hk in Hpres; congruence|].
           rewrite Hpres. cbn [count Js.add map].
           rewrite fromInteger_safe; [|unfold sumZ; simpl; lia].
           f_equal. unfold sumZ. simpl. lia.
      * rewrite (IH e Hml Hg). f_equal. unfold sumZ. simpl.
        pose proof (aggregated_present l k) as Hpres. rewrite Hg in Hpres.
        rewrite <- Hk in Hpres. destruct Hpres as [Hpres _]. congruence.
    + rewrite andb_false_r in Hg. rewrite (IH e Hml Hg).
      f_equal. unfold sumZ. simpl. lia.
Qed.

(** *** The latest incident of a sub-location *)

Lemma gt_valid (a b : Incident.t) :
  hasValidDate a = true -> hasValidDate b = true ->
  Js.gt (Incident.time a) (Incident.time b) = (ms a >? ms b).
Proof.
  unfold hasValidDate, ms.
  destruct (Incident.time a), (Incident.time b); simpl; congruence.
Qed.

Lemma firstOfLatestDate_snoc_keep l k latest i :
  firstOfLatestDate l k latest ->
  (Incident.location i = k -> ms i <= ms latest) ->
  firstOfLatestDate (l ++ [i]) k latest.
Proof.
  intros (before & after & -> & Hk & Hb & Ha) Hi.
  exists before, (after ++ [i]). repeat split; auto.
  - now rewrite <- app_assoc.
  - intros j Hj Hjk. apply elem_of_app in Hj as [Hj|Hj]; [now apply Ha|].
    apply list_elem_of_singleton in Hj as ->. now apply Hi.
Qed.

Lemma firstOfLatestDate_snoc_new l k latest i :
  firstOfLatestDate l k latest ->
  Incident.location i = k -> ms latest < ms i ->
  firstOfLatestDate (l ++ [i]) k i.
Proof.
  intros (before & after & -> & Hk & Hb & Ha) Hik Hlt.
  exists (before ++ latest :: after), []. repeat split; auto.
  - intros j Hj Hjk. apply elem_of_app in Hj as [Hj|Hj].
    + specialize (Hb j Hj Hjk). lia.
    + apply elem_of_cons in Hj as [->|Hj]; [lia|].
      specialize (Ha j Hj Hjk). lia.
  - intros j Hj. now apply not_elem_of_nil in Hj.
Qed.

Lemma aggregated_latest (l : list Incident.t) (k : string) (e : Aggregate) :
  forallb hasValidDate l = true ->
  get (mainBuildingAggregated l) k = Some e ->
  firstOfLatestDate l k (latestIncident e).
Proof.
  revert e. induction l as [|i l IH] using rev_ind; intros e Hv Hg.
  - discriminate.
  - rewrite forallb_app in Hv. apply andb_prop in Hv as [Hvl Hvi].
    simpl in Hvi. rewrite andb_true_r in Hvi.
    rewrite aggregated_snoc, get_reducer in Hg.
    destruct (Js.startsWith (Incident.location i) mainBuilding) eqn:Hp; simpl in Hg.
    + destruct (String.eqb_spec (Incident.location i) k) as [Hk|Hk].
      * injection Hg as <-. unfold folded. rewrite Hk.
        destruct (get (mainBuildingAggregated l) k) as [e0|] eqn:Hg0.
        -- specialize (IH e0 Hvl eq_refl).
           assert (Hv0 : hasValidDate (latestIncident e0) = true).
           { destruct IH as (before & after & -> & _).
             rewrite forallb_app in Hvl. apply andb_prop in Hvl as [_ Hvl].
             simpl in Hvl. now apply andb_prop in Hvl as [Hvl _]. }
           rewrite (gt_valid _ _ Hvi Hv0).
           destruct (Z.gtb_spec (ms i) (ms (latestIncident e0))); simpl.
           ++ eapply firstOfLatestDate_snoc_new; eauto.
           ++ apply firstOfLatestDate_snoc_keep; [exact IH|]. intros _. lia.
        -- simpl. assert (Hself : Js.gt (Incident.time i) (Incident.time i) = false).
           { rewrite (gt_valid _ _ Hvi Hvi).
             destruct (Z.gtb_spec (ms i) (ms i)); [lia|reflexivity]. }
           rewrite Hself. simpl.
           exists l, []. repeat split; auto.
           ++ intros j Hj Hjk. exfalso.
              pose proof (aggregated_present l k) as Hc.
              rewrite Hg0 in Hc. rewrite <- Hk in Hc.
              destruct Hc as [Hc|Hs]; [congruence|].
              assert (Hin : j ∈ storedAt (Incident.location i) l).
              { unfold storedAt. apply list_elem_of_In, filter_In.
                split; [now apply list_elem_of_In|].
                rewrite Hk, Hjk. apply String.eqb_refl. }
              rewrite Hs in Hin. now apply not_elem_of_nil in Hin.
           ++ intros j Hj. now apply not_elem_of_nil in Hj.
      * apply firstOfLatestDate_snoc_keep; [now apply IH|]. congruence.
    + apply firstOfLatestDate_snoc_keep; [now apply IH|].
      intros Hk. exfalso.
      pose proof (aggregated_present l k) as Hc. rewrite Hg in Hc.
      rewrite <- Hk in Hc. destruct Hc as [Hc _]. congruence.
Qed.

(** C2 fails on a tie: of two incidents of one sub-location with the same
    date the first one stored stays the latest, not the last one. *)
Lemma same_date_counterexample : ~ latest_last_wins_claim.
Proof.
  intros H. specialize (H Sample.sameDate "본관동 - 교실" eq_refl eq_refl).
  vm_compute in H. discriminate H.
Qed.

(** C2 (amended): in the main-building aggregation of incidents with valid
    dates, the latest incident tracked for a sub-location is an incident of
    that sub-location of the maximum date, and of several incidents of that
    date it is the one stored first: every incident of the sub-location
    stored before it is strictly earlier, none stored after it is later. *)
Theorem latest_is_first_of_latest_date
  (incidents : list Incident.t) (location : string) (entry : Aggregate) :
  forallb hasValidDate incidents = true ->
  get (mainBuildingAggregated incidents) location = Some entry ->
  exists before after,
    incidents = before ++ latestIncident entry :: after
    /\ Incident.location (latestIncident entry) = location
    /\ (forall i, i ∈ before -> Incident.location i = location ->
                  ms i < ms (latestIncident entry))
    /\ (forall i, i ∈ after -> Incident.location i = location ->
                  ms i <= ms (latestIncident entry)).
Proof. apply aggregated_latest. Qed.

Lemma latest_is_first_of_latest_date_witness :
  exists before after,
    Sample.sameDate
    = before ++ Incident.make 1 "2024-05-01" "본관동 - 교실" 2 "trip" :: after
    /\ Incident.location (Incident.make 1 "2024-05-01" "본관동 - 교실" 2 "trip")
       = "본관동 - 교실"
    /\ (forall i, i ∈ before -> Incident.location i = "본관동 - 교실" ->
                  ms i < ms (Incident.make 1 "2024-05-01" "본관동 - 교실" 2 "trip"))
    /\ (forall i, i ∈ after -> Incident.location i = "본관동 - 교실" ->
                  ms i <= ms (Incident.make 1 "2024-05-01" "본관동 - 교실" 2 "trip")).
Proof.
  apply (latest_is_first_of_latest_date Sample.sameDate "본관동 - 교실"
           (mkAggregate (Js.Finite 7)
              (Incident.make 1 "2024-05-01" "본관동 - 교실" 2 "trip")));
    reflexivity.
Defined.

(** *** The registry *)

Lemma registry_places (f g : Facility.t) :
  f ∈ facilities -> g ∈ facilities ->
  samePlace g f = (Facility.name g =? Facility.name f)%string.
Proof.
  assert (Hall : forallb (fun f' => forallb (fun g' =>
            Bool.eqb (samePlace g' f')
                     (Facility.name g' =? Facility.name f')%string)
            facilities) facilities = true) by (vm_compute; reflexivity).
  intros Hf Hg. apply list_elem_of_In in Hf, Hg.
  rewrite forallb_forall in Hall. specialize (Hall f Hf).
  rewrite forallb_forall in Hall. specialize (Hall g Hg).
  now apply Bool.eqb_prop in Hall.
Qed.

Lemma registry_parts (f : Facility.t) :
  f ∈ facilities ->
  Js.startsWith (Facility.name f) mainBuilding = true ->
  exists parts, lookupParts mainBuildingParts (Facility.name f) = Some parts.
Proof.
  assert (Hall : forallb (fun f' =>
            implb (Js.startsWith (Facility.name f') mainBuilding)
                  (match lookupParts mainBuildingParts (Facility.name f') with
                   | Some _ => true
                   | None => false
                   end)) facilities = true) by (vm_compute; reflexivity).
  intros Hf Hp. apply list_elem_of_In in Hf.
  rewrite forallb_forall in Hall. specialize (Hall f Hf).
  rewrite Hp in Hall. cbn [implb] in Hall.
  destruct (lookupParts mainBuildingParts (Facility.name f)) as [parts|];
    [now exists parts | discriminate Hall].
Qed.

Lemma findFacility_Some (k : string) (g : Facility.t) :
  findFacility k = Some g -> g ∈ facilities /\ Facility.name g = k.
Proof.
  intros H. apply find_some in H as [Hin Hk].
  split; [now apply list_elem_of_In | now apply String.eqb_eq].
Qed.

Lemma findFacility_None (k : string) :
  findFacility k = None <-> k ∉ facilityLocations.
Proof.
  unfold facilityLocations. split.
  - intros H Hin. apply list_elem_of_In, in_map_iff in Hin as (f & Hf & Hin).
    pose proof (find_none _ _ H f Hin) as Hne. simpl in Hne.
    rewrite Hf, String.eqb_refl in Hne. discriminate.
  - intros H. destruct (findFacility k) as [g|] eqn:Hg; [|reflexivity].
    apply findFacility_Some in Hg as [Hin Hk]. exfalso. apply H.
    apply list_elem_of_In, in_map_iff. exists g.
    split; [exact Hk | now apply list_elem_of_In].
Qed.

(** *** What the overlay displays *)

Lemma total_app (f : Facility.t) (l1 l2 : list CSS2DObject) :
  total f (l1 ++ l2) = total f l1 + total f l2.
Proof. unfold total. now rewrite List.filter_app, map_app, sumZ_app. Qed.

Lemma labelsOf_app (l1 l2 : list Child) :
  labelsOf (l1 ++ l2) = labelsOf l1 ++ labelsOf l2.
Proof. unfold labelsOf. apply flat_map_app. Qed.

Lemma labelsOf_meshes {A : Type} (mk : A -> Mesh) (l : list A) :
  labelsOf (map (fun a => MeshChild (mk a)) l) = [].
Proof. induction l; simpl; auto. Qed.

Lemma labelsOf_entry (hid : option Z) (k : string) (e : Aggregate) :
  labelsOf (fst (mainBuildingEntry hid k e)) = snd (mainBuildingEntry hid k e).
Proof.
  unfold mainBuildingEntry.
  destruct (lookupParts mainBuildingParts k) as [parts|]; [|reflexivity].
  destruct (findFacility k) as [g|]; simpl.
  - now rewrite labelsOf_app, labelsOf_meshes.
  - apply labelsOf_meshes.
Qed.

Lemma labelsOf_entries (hid : option Z) (acc : list (string * Aggregate)) :
  labelsOf (flat_map fst
              (map (fun kv => mainBuildingEntry hid (fst kv) (snd kv)) acc))
  = flat_map snd (map (fun kv => mainBuildingEntry hid (fst kv) (snd kv)) acc).
Proof.
  induction acc as [|[k e] acc IH]; simpl; [reflexivity|].
  now rewrite labelsOf_app, labelsOf_entry, IH.
Qed.

(** The overlay's markers and labels are its interactive objects. *)
Lemma shown_interactive (l : list Incident.t) (hid : option Z) :
  shown (synchronize l hid) = interactiveObjects (synchronize l hid).
Proof. unfold shown, synchronize. simpl. now rewrite labelsOf_entries. Qed.

Lemma total_single (f : Facility.t) (o : CSS2DObject) :
  total f [o] = if displayedAt f o then displayedCount o else 0.
Proof.
  unfold total. cbn [List.filter].
  destruct (displayedAt f o); unfold sumZ; simpl; lia.
Qed.

Lemma displayedAt_facility (f g : Facility.t) c ct (height : Q) u o :
  displayedAt f
    (mkCSS2DObject c ct
       (vx (Facility.position g), height, vz (Facility.position g)) u o)
  = samePlace g f.
Proof. reflexivity. Qed.

Lemma displayedCount_toString c sn (n : Js.number) p u o :
  displayedCount (mkCSS2DObject c (innerHTML sn (Js.toString n)) p u o)
  = shownValue n
  /\ displayedCount (mkCSS2DObject c (textContent (Js.toString n)) p u o)
     = shownValue n.
Proof. split; reflexivity. Qed.

Lemma entry_total (hid : option Z) (f : Facility.t) (k : string) (e : Aggregate) :
  f ∈ facilities ->
  total f (snd (mainBuildingEntry hid k e))
  = if (Facility.name f =? k)%string
    then match lookupParts mainBuildingParts k with
         | Some _ => shownValue (count e)
         | None => 0
         end
    else 0.
Proof.
  intros Hf. unfold mainBuildingEntry.
  destruct (lookupParts mainBuildingParts k) as [parts|];
    [|now destruct (Facility.name f =? k)%string].
  destruct (findFacility k) as [g|] eqn:Hg; simpl.
  - apply findFacility_Some in Hg as [Hin Hk].
    rewrite total_single, displayedAt_facility.
    rewrite (registry_places f g Hf Hin), Hk, String.eqb_sym.
    destruct (Facility.name f =? k)%string; [|reflexivity].
    apply displayedCount_toString.
  - destruct (String.eqb_spec (Facility.name f) k) as [Hk|Hk]; [|reflexivity].
    exfalso. apply findFacility_None in Hg. apply Hg. rewrite <- Hk.
    unfold facilityLocations.
    apply list_elem_of_In, in_map, list_elem_of_In, Hf.
Qed.

Lemma get_not_key (acc : list (string * Aggregate)) (k : string) :
  k ∉ map fst acc -> get acc k = None.
Proof.
  induction acc as [|[k0 v0] acc IH]; simpl; intros Hk; [reflexivity|].
  rewrite not_elem_of_cons in Hk. destruct Hk as [Hne Hk].
  destruct (String.eqb_spec k0 k); [congruence | now apply IH].
Qed.

Lemma labels_total (hid : option Z) (f : Facility.t) (acc : list (string * Aggregate)) :
  f ∈ facilities -> NoDup (map fst acc) ->
  total f (flat_map snd
             (map (fun kv => mainBuildingEntry hid (fst kv) (snd kv)) acc))
  = match get acc (Facility.name f),
          lookupParts mainBuildingParts (Facility.name f) with
    | Some e, Some _ => shownValue (count e)
    | _, _ => 0
    end.
Proof.
  intros Hf. induction acc as [|[k e] acc IH];
    cbn [map flat_map get fst snd]; intros Hnd.
  - reflexivity.
  - apply NoDup_cons in Hnd as [Hk Hnd].
    rewrite total_app, (entry_total hid f k e Hf), (IH Hnd).
    rewrite (String.eqb_sym k).
    destruct (String.eqb_spec (Facility.name f) k) as [->|Hne].
    + rewrite (get_not_key acc k Hk).
      destruct (lookupParts mainBuildingParts k); lia.
    + lia.
Qed.

Lemma markers_total (hid : option Z) (f : Facility.t) (l : list Incident.t) :
  f ∈ facilities ->
  Forall (fun i => Z.abs (Incident.count i) <= 2 ^ 53) l ->
  total f (incidentMarkers hid l)
  = if Js.startsWith (Facility.name f) mainBuilding then 0
    else storedTotal l (Facility.name f).
Proof.
  intros Hf Hsafe. induction Hsafe as [|i l Hi _ IH]; simpl.
  - now destruct (Js.startsWith _ _).
  - unfold storedTotal, storedAt in *. cbn [List.filter].
    unfold incidentMarker.
    destruct (Js.startsWith (Incident.location i) mainBuilding) eqn:Hp.
    + rewrite IH.
      destruct (Js.startsWith (Facility.name f) mainBuilding) eqn:Hpf;
        [reflexivity|].
      destruct (String.eqb_spec (Incident.location i) (Facility.name f)) as [E|E];
        [congruence | reflexivity].
    + destruct (findFacility (Incident.location i)) as [g|] eqn:Hg.
      * apply findFacility_Some in Hg as [Hin Hk].
        change (?m :: incidentMarkers hid l)
          with ([m] ++ incidentMarkers hid l).
        rewrite total_app, IH, total_single, displayedAt_facility.
        rewrite (registry_places f g Hf Hin), Hk.
        rewrite (proj2 (displayedCount_toString _ "" _ _ _ _)).
        rewrite (shownValue_safe _ Hi).
        destruct (String.eqb_spec (Incident.location i) (Facility.name f)) as [E|E].
        -- rewrite <- E, Hp. unfold sumZ. simpl. lia.
        -- reflexivity.
      * rewrite IH.
        destruct (String.eqb_spec (Incident.location i) (Facility.name f)) as [E|E];
          [|reflexivity].
        exfalso. apply findFacility_None in Hg. apply Hg. rewrite E.
        unfold facilityLocations.
        apply list_elem_of_In, in_map, list_elem_of_In, Hf.
Qed.

Lemma displayedTotal_facility (l : list Incident.t) (hid : option Z) (f : Facility.t) :
  magnitude l <= 2 ^ 53 ->
  f ∈ facilities ->
  displayedTotal (synchronize l hid) f = storedTotal l (Facility.name f).
Proof.
  intros Hm Hf. unfold displayedTotal.
  fold (total f (shown (synchronize l hid))).
  unfold shown, synchronize.
  cbn [mainBuildingIncidentsGroup incidentMarkersGroup].
  rewrite total_app, labelsOf_entries.
  rewrite (labels_total hid f _ Hf (NoDup_keys_aggregated l)).
  rewrite (markers_total hid f l Hf).
  2:{ apply Forall_forall. intros i Hi.
      pose proof (count_le_magnitude l i Hi). lia. }
  pose proof (aggregated_present l (Facility.name f)) as Hpres.
  pose proof (storedTotal_le_magnitude l (Facility.name f)) as Hle.
  destruct (get (mainBuildingAggregated l) (Facility.name f)) as [e|] eqn:Hg.
  - destruct Hpres as [Hp _]. rewrite Hp.
    destruct (registry_parts f Hf Hp) as [parts ->].
    rewrite (aggregated_count l _ e Hm Hg), shownValue_safe by lia. lia.
  - destruct (Js.startsWith (Facility.name f) mainBuilding); [|lia].
    destruct Hpres as [Hpres|Hpres]; [discriminate|].
    unfold storedTotal. rewrite Hpres. reflexivity.
Qed.

(** *** Where the elements of the overlay come from *)

Lemma aggregated_key (l : list Incident.t) (k : string) (e : Aggregate) :
  get (mainBuildingAggregated l) k = Some e ->
  Incident.location (latestIncident e) = k
  /\ Js.startsWith k mainBuilding = true.
Proof.
  revert e. induction l as [|i l IH] using rev_ind; intros e Hg.
  - discriminate.
  - rewrite aggregated_snoc, get_reducer in Hg.
    destruct (Js.startsWith (Incident.location i) mainBuilding) eqn:Hp;
      simpl in Hg; [|now apply IH].
    destruct (String.eqb_spec (Incident.location i) k) as [Hk|Hk];
      [|now apply IH].
    injection Hg as <-. unfold folded. rewrite Hk.
    split; [|now rewrite <- Hk].
    destruct (get (mainBuildingAggregated l) k) as [e0|] eqn:Hg0.
    + destruct (Js.gt _ _); simpl; [exact Hk | now apply IH].
    + now destruct (Js.gt _ _).
Qed.

Lemma get_member (acc : list (string * Aggregate)) (k : string) (e : Aggregate) :
  NoDup (map fst acc) -> (k, e) ∈ acc -> get acc k = Some e.
Proof.
  induction acc as [|[k0 e0] acc IH]; simpl; intros Hnd Hin.
  - now apply not_elem_of_nil in Hin.
  - apply NoDup_cons in Hnd as [Hk0 Hnd].
    apply elem_of_cons in Hin as [Heq|Hin].
    + injection Heq as -> ->. now rewrite String.eqb_refl.
    + destruct (String.eqb_spec k0 k) as [->|Hne]; [|now apply IH].
      exfalso. apply Hk0. apply list_elem_of_In, in_map_iff.
      exists (k, e). split; [reflexivity | now apply list_elem_of_In].
Qed.

(** A label belongs to an entry of the aggregation: it shows the entry's
    summed count and is tagged with the entry's latest incident. *)
Lemma label_entry (l : list Incident.t) (hid : option Z) (o : CSS2DObject) :
  o ∈ labelsOf (mainBuildingIncidentsGroup (synchronize l hid)) ->
  exists k e,
    get (mainBuildingAggregated l) k = Some e
    /\ displayedCount o = shownValue (count e)
    /\ userData_incident o = latestIncident e.
Proof.
  unfold synchronize. cbn [mainBuildingIncidentsGroup].
  rewrite labelsOf_entries. intros Hin.
  apply list_elem_of_In, in_flat_map in Hin as (entry & Hentry & Ho).
  apply in_map_iff in Hentry as ([k e] & <- & Hke).
  exists k, e. split.
  - apply get_member; [apply NoDup_keys_aggregated | now apply list_elem_of_In].
  - cbn [fst snd] in Ho. unfold mainBuildingEntry in Ho.
    destruct (lookupParts mainBuildingParts k); [|contradiction].
    destruct (findFacility k); [|contradiction].
    destruct Ho as [<-|[]]. split; [|reflexivity].
    apply displayedCount_toString.
Qed.

(** A marker belongs to a stored incident that is not of the main
    building and whose location is registered. *)
Lemma marker_incident (l : list Incident.t) (hid : option Z) (o : CSS2DObject) :
  o ∈ incidentMarkers hid l ->
  userData_incident o ∈ l
  /\ incidentMarker hid (userData_incident o) = Some o.
Proof.
  induction l as [|i l IH]; cbn [incidentMarkers]; intros Hin.
  - now apply not_elem_of_nil in Hin.
  - destruct (incidentMarker hid i) as [m|] eqn:Hm.
    + apply elem_of_cons in Hin as [->|Hin].
      * assert (Hu : userData_incident m = i).
        { unfold incidentMarker in Hm.
          destruct (Js.startsWith _ _); [discriminate|].
          destruct (findFacility _); [|discriminate].
          now injection Hm as <-. }
        rewrite Hu. split; [apply list_elem_of_here | exact Hm].
      * destruct (IH Hin) as [H1 H2]. split; [now apply list_elem_of_further | exact H2].
    + destruct (IH Hin) as [H1 H2]. split; [now apply list_elem_of_further | exact H2].
Qed.

Lemma incidentMarkers_app (hid : option Z) (l1 l2 : list Incident.t) :
  incidentMarkers hid (l1 ++ l2) = incidentMarkers hid l1 ++ incidentMarkers hid l2.
Proof.
  induction l1 as [|i l1 IH]; cbn [incidentMarkers app]; [reflexivity|].
  destruct (incidentMarker hid i); now rewrite IH.
Qed.

Lemma aggregated_skip (before after : list Incident.t) (i : Incident.t) :
  Js.startsWith (Incident.location i) mainBuilding = false ->
  mainBuildingAggregated (before ++ i :: after)
  = mainBuildingAggregated (before ++ after).
Proof.
  intros Hp. unfold mainBuildingAggregated.
  rewrite !fold_left_app. cbn [fold_left]. now rewrite reducer_other.
Qed.

(** C1 fails for large counts: sums of counts are formed in double
    precision, so with counts [2 ^ 53], 1 and 1 at one classroom
    sub-location the label shows 9007199254740992, two less than the sum
    of the stored counts. *)
Lemma large_counts_counterexample : ~ displayed_totals_claim.
Proof.
  intros H. specialize (H Sample.largeCounts None).
  apply Forall_inv in H. vm_compute in H. discriminate H.
Qed.

(** C1 (amended): for every store in which the magnitudes of the counts
    add up to at most [2 ^ 53], after the synchronisation the counts
    displayed at a facility add up to the sum of the counts of the
    incidents stored at that facility; the summed count of an entry of
    the main-building aggregation, and the count its label shows, is the
    sum of the counts of the incidents whose location is exactly that
    sub-location key. *)
Theorem displayed_totals (incidents : list Incident.t) (hid : option Z) :
  magnitude incidents <= 2 ^ 53 ->
  Forall (fun facility =>
            displayedTotal (synchronize incidents hid) facility
            = storedTotal incidents (Facility.name facility)) facilities
  /\ (forall location entry,
        get (mainBuildingAggregated incidents) location = Some entry ->
        count entry = Js.Finite (storedTotal incidents location))
  /\ (forall label,
        label ∈ labelsOf (mainBuildingIncidentsGroup (synchronize incidents hid)) ->
        displayedCount label
        = storedTotal incidents (Incident.location (userData_incident label))).
Proof.
  intros Hm.
  split; [|split].
  - apply Forall_forall. intros f Hf. now apply displayedTotal_facility.
  - intros k e Hg. now apply aggregated_count.
  - intros o Ho. apply label_entry in Ho as (k & e & Hg & -> & ->).
    rewrite (proj1 (aggregated_key _ _ _ Hg)).
    rewrite (aggregated_count _ _ _ Hm Hg). apply shownValue_safe.
    pose proof (storedTotal_le_magnitude incidents k). lia.
Qed.

Lemma displayed_totals_witness :
  Forall (fun facility =>
            displayedTotal
              (synchronize (Sample.inGymnasium :: Sample.sameDate) None) facility
            = storedTotal (Sample.inGymnasium :: Sample.sameDate)
                          (Facility.name facility)) facilities
  /\ (forall location entry,
        get (mainBuildingAggregated (Sample.inGymnasium :: Sample.sameDate))
            location = Some entry ->
        count entry
        = Js.Finite (storedTotal (Sample.inGymnasium :: Sample.sameDate) location))
  /\ (forall label,
        label ∈ labelsOf (mainBuildingIncidentsGroup
                            (synchronize (Sample.inGymnasium :: Sample.sameDate)
                                         None)) ->
        displayedCount label
        = storedTotal (Sample.inGymnasium :: Sample.sameDate)
                      (Incident.location (userData_incident label))).
Proof.
  apply (displayed_totals (Sample.inGymnasium :: Sample.sameDate) None).
  vm_compute. discriminate.
Defined.

(** C6: an incident whose location neither starts with the main-building
    prefix nor is the name of a registered facility gets no marker; the
    synchronisation yields what it yields for the store without that
    incident, and nothing it yields is tagged with the incident. *)
Theorem unregistered_location_skipped
  (before after : list Incident.t) (incident : Incident.t) (hid : option Z) :
  Js.startsWith (Incident.location incident) mainBuilding = false ->
  Incident.location incident ∉ facilityLocations ->
  incidentMarker hid incident = None
  /\ synchronize (before ++ incident :: after) hid
     = synchronize (before ++ after) hid
  /\ (forall o,
        o ∈ interactiveObjects (synchronize (before ++ incident :: after) hid) ->
        userData_incident o <> incident).
Proof.
  intros Hp Hreg. apply findFacility_None in Hreg.
  assert (Hnone : incidentMarker hid incident = None).
  { unfold incidentMarker. now rewrite Hp, Hreg. }
  assert (Hsync : synchronize (before ++ incident :: after) hid
                  = synchronize (before ++ after) hid).
  { unfold synchronize. rewrite (aggregated_skip _ _ _ Hp).
    rewrite !incidentMarkers_app. cbn [incidentMarkers]. now rewrite Hnone. }
  split; [exact Hnone|]. split; [exact Hsync|].
  intros o Ho Heq. rewrite <- shown_interactive in Ho.
  unfold shown in Ho. apply elem_of_app in Ho as [Ho|Ho].
  - apply label_entry in Ho as (k & e & Hg & _ & Hu).
    apply aggregated_key in Hg as [Hk Hpk].
    rewrite <- Hu, Heq in Hk. congruence.
  - cbn [incidentMarkersGroup synchronize] in Ho.
    apply marker_incident in Ho as [_ Hm]. rewrite Heq in Hm. congruence.
Qed.

Lemma unregistered_location_skipped_witness :
  incidentMarker None Sample.elsewhere = None
  /\ synchronize ([Sample.inGymnasium] ++ Sample.elsewhere :: Sample.sameDate) None
     = synchronize ([Sample.inGymnasium] ++ Sample.sameDate) None
  /\ (forall o,
        o ∈ interactiveObjects
              (synchronize ([Sample.inGymnasium] ++ Sample.elsewhere :: Sample.sameDate)
                           None) ->
        userData_incident o <> Sample.elsewhere).
Proof.
  apply (unregistered_location_skipped
           [Sample.inGymnasium] Sample.sameDate Sample.elsewhere None).
  - reflexivity.
  - apply (bool_decide_unpack _). vm_compute. reflexivity.
Defined.

(** Two incidents of one classroom sub-location with counts 2 and 5: the
    label shows 7; an incident of the gymnasium with count 3: its marker
    shows 3. *)
Example classroom_label_and_gymnasium_marker :
  map content (interactiveObjects
                 (synchronize (Sample.inGymnasium :: Sample.sameDate) None))
  = [innerHTML "교실" "7"; textContent "3"].
Proof. reflexivity. Qed.

End OverlayFacts.

(* ===================================================================== *)
(** ** The incident store *)
(* ===================================================================== *)

Section StoreFacts.

Lemma submitAll_snoc (subs : list (Z * Store.FormData)) now fd :
  Store.submitAll (subs ++ [(now, fd)])
  = Store.handleAddIncident now fd (Store.submitAll subs).
Proof. unfold Store.submitAll. now rewrite fold_left_app. Qed.

Lemma ids_submitAll (subs : list (Z * Store.FormData)) :
  Store.ids (Store.submitAll subs) = map fst subs.
Proof.
  induction subs as [|[now fd] subs IH] using rev_ind; [reflexivity|].
  rewrite submitAll_snoc. unfold Store.handleAddIncident, Store.ids in *.
  rewrite !map_app, IH. reflexivity.
Qed.

(** The reachable stores are the results of sequences of submissions. *)
Lemma reachable_submitAll (incidents : list Incident.t) :
  Store.reachable incidents <-> exists subs, incidents = Store.submitAll subs.
Proof.
  split.
  - induction 1 as [|now fd incidents _ [subs ->]].
    + now exists [].
    + exists (subs ++ [(now, fd)]). now rewrite submitAll_snoc.
  - intros [subs ->]. induction subs as [|[now fd] subs IH] using rev_ind.
    + constructor.
    + rewrite submitAll_snoc. now constructor.
Qed.

(** C9, which the code breaks: the id of a new incident is the clock
    reading [Date.now()] and is not compared with the ids in the store, so
    two submissions in the same millisecond store two incidents with the
    same id.  The ids then fail at what the code uses them for: the two
    entries of the incident list get the same key, and selecting one of
    the two incidents marks the markers of both as highlighted. *)
Theorem same_millisecond_same_id :
  Store.reachable Sample.sameMillisecond
  /\ Store.ids Sample.sameMillisecond = [1714521600000; 1714521600000]
  /\ ~ unique_ids_claim
  /\ map Panel.key (Panel.incidentList Sample.sameMillisecond None)
     = [1714521600000; 1714521600000]
  /\ map Overlay.className
         (Overlay.incidentMarkersGroup
            (Overlay.synchronize Sample.sameMillisecond (Some 1714521600000)))
     = ["marker highlighted-marker"; "marker highlighted-marker"].
Proof.
  assert (Hr : Store.reachable Sample.sameMillisecond) by (repeat constructor).
  split; [exact Hr|]. split; [reflexivity|]. split; [|split; reflexivity].
  intros H. apply H in Hr. vm_compute in Hr.
  apply NoDup_cons in Hr. destruct Hr as [Hnotin _].
  apply Hnotin. now left.
Qed.

End StoreFacts.

(* ===================================================================== *)
(** ** The incident list *)
(* ===================================================================== *)

Section PanelFacts.
Import Panel.

Lemma time_valid (i : Incident.t) :
  hasValidDate i = true -> Incident.time i = Some (ms i).
Proof. unfold hasValidDate, ms. now destruct (Incident.time i). Qed.

Lemma comparison_valid (a b : Incident.t) :
  hasValidDate a = true -> hasValidDate b = true ->
  Js.comparison byDateDescending a b = ms b - ms a.
Proof.
  intros Ha Hb. unfold Js.comparison, byDateDescending.
  now rewrite (time_valid a Ha), (time_valid b Hb).
Qed.

Lemma insert_Permutation {A : Type} (cmp : A -> A -> option Z) (a : A) (l : list A) :
  Permutation (a :: l) (Js.insert cmp a l).
Proof.
  induction l as [|b l IH]; simpl; [reflexivity|].
  destruct (Js.comparison cmp a b <=? 0); [reflexivity|].
  rewrite perm_swap. now apply perm_skip.
Qed.

Lemma sort_Permutation {A : Type} (cmp : A -> A -> option Z) (l : list A) :
  Permutation l (Js.sort cmp l).
Proof.
  induction l as [|a l IH]; simpl; [reflexivity|].
  rewrite <- insert_Permutation. now apply perm_skip.
Qed.

Lemma forallb_Permutation {A : Type} (p : A -> bool) (l l' : list A) :
  Permutation l l' -> forallb p l = true -> forallb p l' = true.
Proof.
  intros Hp. rewrite !forallb_forall. intros H x Hx.
  apply H. apply list_elem_of_In. rewrite Hp. now apply list_elem_of_In.
Qed.

Lemma insert_descending (a : Incident.t) (l : list Incident.t) :
  hasValidDate a = true -> forallb hasValidDate l = true ->
  StronglySorted laterFirst l ->
  StronglySorted laterFirst (Js.insert byDateDescending a l).
Proof.
  intros Ha Hl Hs. induction Hs as [|b l Hs IH Hb]; simpl.
  - repeat constructor.
  - simpl in Hl. apply andb_prop in Hl as [Hvb Hvl].
    rewrite (comparison_valid a b Ha Hvb).
    destruct (Z.leb_spec (ms b - ms a) 0) as [Hle|Hgt].
    + constructor; [now constructor|]. constructor.
      * unfold laterFirst. lia.
      * eapply Forall_impl; [exact Hb|].
        unfold laterFirst. intros c Hc. lia.
    + constructor; [now apply IH|].
      apply Forall_forall. intros c Hc.
      rewrite <- insert_Permutation in Hc.
      apply elem_of_cons in Hc as [->|Hc].
      * unfold laterFirst. lia.
      * rewrite Forall_forall in Hb. now apply Hb.
Qed.

Lemma insert_keeps_order (t : Z) (a : Incident.t) (l : list Incident.t) :
  hasValidDate a = true -> forallb hasValidDate l = true ->
  List.filter (fun i => ms i =? t) (Js.insert byDateDescending a l)
  = List.filter (fun i => ms i =? t) (a :: l).
Proof.
  intros Ha Hl. induction l as [|b l IH]; [reflexivity|].
  simpl in Hl. apply andb_prop in Hl as [Hvb Hvl].
  cbn [Js.insert]. rewrite (comparison_valid a b Ha Hvb).
  destruct (Z.leb_spec (ms b - ms a) 0) as [Hle|Hgt]; [reflexivity|].
  cbn [List.filter]. rewrite (IH Hvl). cbn [List.filter].
  destruct (Z.eqb_spec (ms a) t) as [Hat|Hat];
    destruct (Z.eqb_spec (ms b) t) as [Hbt|Hbt]; try reflexivity; lia.
Qed.

(** C7: a store of incidents with valid dates is listed as a
    rearrangement of itself in descending order of date, incidents of the
    same date staying in the order of the store; incidents dated
    2024-01-05, 2024-03-01 and 2024-02-10 are listed in the order
    2024-03-01, 2024-02-10, 2024-01-05. *)
Theorem sortedIncidents_descending
  (incidents : list Incident.t) (highlightedIncidentId : option Z) :
  forallb hasValidDate incidents = true ->
  incidentList incidents highlightedIncidentId
  = map (renderEntry highlightedIncidentId) (sortedIncidents incidents)
  /\ Permutation incidents (sortedIncidents incidents)
  /\ StronglySorted laterFirst (sortedIncidents incidents)
  /\ (forall t, List.filter (fun i => ms i =? t) (sortedIncidents incidents)
                = List.filter (fun i => ms i =? t) incidents)
  /\ (forall a b c,
        Incident.date a = "2024-01-05" ->
        Incident.date b = "2024-03-01" ->
        Incident.date c = "2024-02-10" ->
        sortedIncidents [a; b; c] = [b; c; a]).
Proof.
  intros Hv. split; [reflexivity|]. split; [apply sort_Permutation|].
  unfold sortedIncidents. split; [|split].
  - induction incidents as [|a l IH]; simpl; [constructor|].
    simpl in Hv. apply andb_prop in Hv as [Ha Hl].
    apply insert_descending; auto.
    eapply forallb_Permutation; [apply sort_Permutation | exact Hl].
  - intros t. induction incidents as [|a l IH]; [reflexivity|].
    simpl in Hv. apply andb_prop in Hv as [Ha Hl].
    cbn [Js.sort]. rewrite insert_keeps_order; auto.
    + cbn [List.filter]. now rewrite (IH Hl).
    + eapply forallb_Permutation; [apply sort_Permutation | exact Hl].
  - intros a b c Ha Hb Hc.
    assert (Ebc : (Js.comparison byDateDescending b c <=? 0) = true)
      by (unfold Js.comparison, byDateDescending, Incident.time;
          rewrite Hb, Hc; reflexivity).
    assert (Eab : (Js.comparison byDateDescending a b <=? 0) = false)
      by (unfold Js.comparison, byDateDescending, Incident.time;
          rewrite Ha, Hb; reflexivity).
    assert (Eac : (Js.comparison byDateDescending a c <=? 0) = false)
      by (unfold Js.comparison, byDateDescending, Incident.time;
          rewrite Ha, Hc; reflexivity).
    cbn [Js.sort Js.insert]. rewrite Ebc. cbn [Js.insert].
    rewrite Eab. cbn [Js.insert]. rewrite Eac. reflexivity.
Qed.

Lemma sortedIncidents_descending_witness :
  incidentList Sample.threeDates None
  = map (renderEntry None) (sortedIncidents Sample.threeDates)
  /\ Permutation Sample.threeDates (sortedIncidents Sample.threeDates)
  /\ StronglySorted laterFirst (sortedIncidents Sample.threeDates)
  /\ (forall t,
        List.filter (fun i => ms i =? t) (sortedIncidents Sample.threeDates)
        = List.filter (fun i => ms i =? t) Sample.threeDates)
  /\ (forall a b c,
        Incident.date a = "2024-01-05" ->
        Incident.date b = "2024-03-01" ->
        Incident.date c = "2024-02-10" ->
        sortedIncidents [a; b; c] = [b; c; a]).
Proof.
  apply (sortedIncidents_descending Sample.threeDates None).
  reflexivity.
Defined.

(** The dates of the example in the order of the list. *)
Example threeDates_listed :
  map Incident.date (sortedIncidents Sample.threeDates)
  = ["2024-03-01"; "2024-02-10"; "2024-01-05"].
Proof. reflexivity. Qed.

End PanelFacts.

(* ===================================================================== *)
(** ** Highlighting: which objects are recorded, and with what material *)
(* ===================================================================== *)

Section HighlightReach.
Import Three Highlight.

(** An iteration records its object exactly when the object is not a
    group, has a material and is not recorded yet. *)
Lemma highlightOne_decides (st : State) (obj : Object3D) :
  (highlightOne st obj = st
   /\ (type obj = "Group" \/ material st !! uuid obj = None
       \/ uuid obj ∈ recordedObjects st))
  \/ (type obj <> "Group"
      /\ (uuid obj ∉ recordedObjects st)
      /\ exists original,
           material st !! uuid obj = Some original
           /\ recordedObjects (highlightOne st obj)
              = recordedObjects st ++ [uuid obj]).
Proof.
  destruct (String.eqb_spec (type obj) "Group") as [Hg|Hg].
  { left. split; [|now left]. unfold highlightOne.
    now rewrite (proj2 (String.eqb_eq _ _) Hg). }
  destruct (material st !! uuid obj) as [original|] eqn:Hm.
  2:{ left. split; [|right; now left]. unfold highlightOne.
      rewrite (proj2 (String.eqb_neq _ _) Hg), Hm. reflexivity. }
  destruct (isRecorded st (uuid obj)) eqn:Hrec.
  { left. split.
    - unfold highlightOne.
      now rewrite (proj2 (String.eqb_neq _ _) Hg), Hm, Hrec.
    - right. right. destruct (decide (uuid obj ∈ recordedObjects st)) as [H|H];
        [exact H|]. apply isRecorded_false in H. congruence. }
  right. apply isRecorded_false in Hrec.
  split; [exact Hg|]. split; [exact Hrec|]. exists original.
  split; [reflexivity|].
  destruct (highlightOne_cases st obj)
    as [Heq|(original' & hl & h2 & Hm' & _ & _ & _ & Heq)].
  - exfalso. unfold highlightOne in Heq.
    rewrite (proj2 (String.eqb_neq _ _) Hg), Hm in Heq.
    apply isRecorded_false in Hrec. rewrite Hrec in Heq.
    destruct (match heap st !! original with
              | Some (HArray rs) => cloneArray (heap st) rs
              | _ => clone (heap st) original
              end) as [h1 hl].
    apply (f_equal highlightedObjects) in Heq. cbn [highlightedObjects] in Heq.
    apply (f_equal (@List.length _)) in Heq. rewrite length_app in Heq.
    simpl in Heq. lia.
  - rewrite Heq. unfold recordedObjects. cbn [highlightedObjects].
    now rewrite map_app.
Qed.

Lemma recorded_step (st : State) (obj : Object3D) (o : objid) :
  o ∈ recordedObjects st -> o ∈ recordedObjects (highlightOne st obj).
Proof.
  intros Ho. destruct (highlightOne_decides st obj)
    as [[-> _]|(_ & _ & original & _ & ->)]; [exact Ho|].
  apply elem_of_app. now left.
Qed.

Lemma recorded_kept (objs : list Object3D) (st : State) (o : objid) :
  o ∈ recordedObjects st -> o ∈ recordedObjects (highlightPass objs st).
Proof.
  revert st. induction objs as [|x objs IH]; intros st Ho; [exact Ho|].
  unfold highlightPass in *. cbn [fold_left]. now apply IH, recorded_step.
Qed.

Lemma recorded_complete (objs : list Object3D) (st0 st : State) (obj : Object3D) :
  passInvariant st0 st ->
  obj ∈ objs -> type obj <> "Group" -> is_Some (material st0 !! uuid obj) ->
  uuid obj ∈ recordedObjects (highlightPass objs st).
Proof.
  revert st. induction objs as [|x objs IH]; intros st Hinv Hin Hg Hm.
  - now apply not_elem_of_nil in Hin.
  - unfold highlightPass in *. cbn [fold_left].
    apply elem_of_cons in Hin as [->|Hin].
    + apply recorded_kept.
      destruct (highlightOne_decides st x)
        as [[-> [H|[H|H]]]|(_ & _ & original & _ & ->)].
      * contradiction.
      * destruct (decide (uuid x ∈ recordedObjects st)) as [Hr|Hr]; [exact Hr|].
        destruct Hinv as (_ & _ & Hother & _).
        rewrite (Hother _ Hr) in H. rewrite H in Hm. now destruct Hm.
      * exact H.
      * apply elem_of_app. right. apply list_elem_of_here.
    + apply IH; auto. now apply passInvariant_step.
Qed.








End HighlightReach.

(* ===================================================================== *)
(** ** The scene that is built *)
(* ===================================================================== *)

Section SceneFacts.
Import Three Highlight Registry.

(** Induction on a scene object with its children. *)
Lemma Object3D_children_ind (P : Object3D -> Prop) :
  (forall o, Forall P (children o) -> P o) -> forall o, P o.
Proof.
  intros H. fix IH 1. intros [id n ty loc cs]. apply H. cbn [children].
  induction cs as [|c cs IHcs]; constructor; [apply IH | exact IHcs].
Qed.

Lemma Forall_flat_map {A B : Type} (P : B -> Prop) (f : A -> list B) (l : list A) :
  Forall (fun a => Forall P (f a)) l -> Forall P (flat_map f l).
Proof.
  induction 1 as [|a l Ha _ IH]; cbn [flat_map]; [constructor|].
  apply Forall_app. now split.
Qed.

(** X3: whatever group [createGymnasium] has assembled, after its
    traversal every object of the group, at any depth, matches the
    gymnasium's location, every mesh among them bears the gymnasium's
    name, and the objects, their order and their types are as before. *)
Theorem gymnasium_objects_all_tagged (group : Object3D) :
  Forall (fun o => matches gymnasium o = true
                   /\ userData_location o = Some gymnasium
                   /\ (type o = "Mesh" -> name o = gymnasium))
         (traverse (Scene.tagGymnasium group))
  /\ map uuid (traverse (Scene.tagGymnasium group)) = map uuid (traverse group)
  /\ map type (traverse (Scene.tagGymnasium group)) = map type (traverse group).
Proof.
  induction group as [o IH] using Object3D_children_ind.
  destruct o as [id n ty loc cs]. cbn [children] in IH.
  cbn [Scene.tagGymnasium traverse uuid name type userData_location children map].
  split; [|split].
  - constructor.
    + unfold matches. cbn [name type userData_location].
      rewrite String.eqb_refl, orb_true_r. split; [reflexivity|].
      split; [reflexivity|]. intros Hty. rewrite Hty. reflexivity.
    + rewrite flat_map_concat_map, map_map, <- flat_map_concat_map.
      apply Forall_flat_map. eapply Forall_impl; [exact IH|].
      intros c Hc. apply Hc.
  - f_equal. rewrite flat_map_concat_map, map_map, <- flat_map_concat_map.
    induction IH as [|c cs' Hc _ IHcs]; cbn [flat_map]; [reflexivity|].
    rewrite !map_app. f_equal; [apply Hc | exact IHcs].
  - f_equal. rewrite flat_map_concat_map, map_map, <- flat_map_concat_map.
    induction IH as [|c cs' Hc _ IHcs]; cbn [flat_map]; [reflexivity|].
    rewrite !map_app. f_equal; [apply Hc | exact IHcs].
Qed.

Lemma built_world (incidentMarkers mainBuildingIncidents : Object3D) :
  snd (Scene.setup incidentMarkers mainBuildingIncidents Scene.empty)
  = Scene.builtWorld.
Proof. vm_compute. reflexivity. Qed.

Lemma built_frame (incidentMarkers mainBuildingIncidents : Object3D) :
  exists frame,
    getObjectByName mainBuilding
      (Scene.built incidentMarkers mainBuildingIncidents) = Some frame
    /\ builtTarget mainBuilding frame = true.
Proof. eexists. split; vm_compute; reflexivity. Qed.

Lemma built_facility (incidentMarkers mainBuildingIncidents : Object3D) :
  forallb (fun f =>
             existsb (builtTarget (Facility.name f))
                     (traverse (Scene.built incidentMarkers mainBuildingIncidents)))
          Scene.otherFacilities = true.
Proof. vm_compute. reflexivity. Qed.

Lemma registered_cases (location : string) :
  location ∈ facilityLocations ->
  Js.startsWith location mainBuilding = true
  \/ exists f, f ∈ Scene.otherFacilities /\ Facility.name f = location.
Proof.
  intros Hin. unfold facilityLocations in Hin.
  apply list_elem_of_In, in_map_iff in Hin as (f & <- & Hf).
  destruct (Js.startsWith (Facility.name f) mainBuilding) eqn:Hp; [now left|].
  right. exists f. split; [|reflexivity].
  apply list_elem_of_In, filter_In. split; [exact Hf|]. now rewrite Hp.
Qed.

Lemma built_target (location : string)
      (incidentMarkers mainBuildingIncidents : Object3D) :
  location ∈ facilityLocations ->
  exists obj,
    obj ∈ objectsToHighlight
            (Scene.built incidentMarkers mainBuildingIncidents) location
    /\ type obj <> "Group"
    /\ is_Some (Scene.material Scene.builtWorld !! uuid obj).
Proof.
  intros Hin.
  assert (Hgood : forall loc obj, builtTarget loc obj = true ->
            type obj <> "Group"
            /\ is_Some (Scene.material Scene.builtWorld !! uuid obj)).
  { intros loc obj H. unfold builtTarget in H.
    apply andb_prop in H as [H Hm]. apply andb_prop in H as [_ Hg].
    split.
    - intros Heq. rewrite Heq in Hg. discriminate Hg.
    - destruct (Scene.material Scene.builtWorld !! uuid obj);
        [now eexists | discriminate]. }
  destruct (registered_cases location Hin) as [Hp|(f & Hf & <-)].
  - destruct (built_frame incidentMarkers mainBuildingIncidents)
      as (frame & Hframe & Ht).
    exists frame. split; [|exact (Hgood _ _ Ht)].
    unfold objectsToHighlight. unfold mainBuilding in Hp, Hframe.
    rewrite Hp, Hframe.
    apply elem_of_app. right. apply list_elem_of_here.
  - pose proof (built_facility incidentMarkers mainBuildingIncidents) as Hall.
    rewrite forallb_forall in Hall.
    specialize (Hall f (proj1 (list_elem_of_In _ _) Hf)).
    apply existsb_exists in Hall as (obj & Hobj & Ht).
    exists obj. split; [|exact (Hgood _ _ Ht)].
    unfold objectsToHighlight. apply elem_of_app. left.
    apply list_elem_of_In, filter_In. split; [exact Hobj|].
    unfold builtTarget in Ht. apply andb_prop in Ht as [Ht _].
    apply andb_prop in Ht as [Ht _]. exact Ht.
Qed.

Lemma restore_all_is_Some (recs : list HighlightedObject) (m : gmap objid ref)
      (o : objid) :
  is_Some (m !! o) -> is_Some (fold_left restore recs m !! o).
Proof.
  revert m. induction recs as [|h recs IH]; intros m Hm; [exact Hm|].
  cbn [fold_left]. apply IH. unfold restore.
  destruct (decide (object h = o)) as [->|Hne].
  - rewrite lookup_insert_eq. now eexists.
  - now rewrite lookup_insert_ne.
Qed.

Lemma highlight_nonempty (scene : Object3D) (location : string) (st : State)
      (obj : Object3D) :
  obj ∈ objectsToHighlight scene location ->
  type obj <> "Group" ->
  is_Some (material st !! uuid obj) ->
  highlightedObjects (highlightObjectsByLocation (Some scene) location st) <> [].
Proof.
  intros Hobj Hg Hm.
  assert (Hrec : uuid obj ∈ recordedObjects
            (highlightObjectsByLocation (Some scene) location st)).
  { unfold highlightObjectsByLocation.
    apply (recorded_complete _ (unhighlightAllObjects st) _ obj).
    - apply passInvariant_start. reflexivity.
    - exact Hobj.
    - exact Hg.
    - cbn [unhighlightAllObjects material].
      apply restore_all_is_Some. exact Hm. }
  intros Hnil. unfold recordedObjects in Hrec. rewrite Hnil in Hrec.
  apply not_elem_of_nil in Hrec. exact Hrec.
Qed.

(** X4: in the scene the effect builds, whatever the overlay groups
    hold, highlighting the location of any registered facility records at
    least one object, provided the objects the effect created still have a
    material: a facility's own meshes, or for a sub-location of the main
    building the building's outline. *)
Theorem registered_location_highlights_something
  (location : string) (incidentMarkers mainBuildingIncidents : Object3D)
  (st : State) :
  location ∈ facilityLocations ->
  (forall o, is_Some (Scene.material Scene.builtWorld !! o) ->
             is_Some (material st !! o)) ->
  highlightedObjects
    (highlightObjectsByLocation
       (Some (Scene.built incidentMarkers mainBuildingIncidents)) location st)
  <> [].
Proof.
  intros Hin Hmat.
  destruct (built_target location incidentMarkers mainBuildingIncidents Hin)
    as (obj & Hobj & Hg & Hm).
  exact (highlight_nonempty _ _ _ obj Hobj Hg (Hmat _ Hm)).
Qed.

Lemma registered_location_highlights_something_witness :
  highlightedObjects
    (highlightObjectsByLocation
       (Some (Scene.built Sample.emptyGroup Sample.emptyGroup))
       "본관동 - 교실" Sample.builtState)
  <> [].
Proof.
  apply (registered_location_highlights_something
           "본관동 - 교실" Sample.emptyGroup Sample.emptyGroup Sample.builtState).
  - apply (bool_decide_unpack _). vm_compute. reflexivity.
  - intros o Ho. exact Ho.
Defined.

(** X5: a facility's incident markers stand higher than its name label,
    and the aggregated labels of the main building higher than the
    building's name label. *)
Theorem markers_above_labels (f : Facility.t) :
  (Scene.facilityLabelY f < Overlay.markerY f)%Q
  /\ (Scene.mainBuildingLabelY < Overlay.labelY)%Q.
Proof.
  split; [|reflexivity].
  unfold Scene.facilityLabelY, Overlay.markerY.
  destruct (Facility.name f =? gymnasium)%string.
  - apply Qplus_lt_r. reflexivity.
  - destruct (Facility.type f); apply Qplus_lt_r; reflexivity.
Qed.

End SceneFacts.

(* ===================================================================== *)
(** ** The tooltip over a sequence of moves *)
(* ===================================================================== *)

Section PickingMoves.
Import Picking.

Lemma moveAll_snoc moves m (st : State) :
  moveAll (moves ++ [m]) st
  = onMouseMove (fst (fst m)) (snd (fst m)) (snd m) (moveAll moves st).
Proof. unfold moveAll. now rewrite fold_left_app. Qed.

(** A visible tooltip has a hovered object. *)
Lemma visible_hovered moves :
  let st := moveAll moves App.initialPicking in
  visible (tooltipData st) = true -> hoveredObject st <> None.
Proof.
  induction moves as [|[[sel hits] ev] moves IH] using rev_ind; cbn zeta in *.
  - discriminate.
  - rewrite moveAll_snoc. cbn [fst snd].
    set (st := moveAll moves App.initialPicking) in *.
    unfold onMouseMove. destruct sel as [i|]; [exact IH|].
    destruct hits as [|hit rest].
    + destruct (hoveredObject st) eqn:Hh; [discriminate|].
      intros Hv. exfalso. now apply IH.
    + destruct (sameObject (hoveredObject st) hit) eqn:Hsame; cbn.
      * intros Hv. apply IH. exact Hv.
      * destruct (userData_incident hit); cbn; discriminate.
Qed.

(** X6: after any sequence of pointer moves whose hits carry incidents,
    a visible tooltip shows the date and the cause of the incident of the
    object that is hovered. *)
Theorem tooltip_shows_hovered_incident
  (moves : list (option Incident.t * list Hit * MouseEvent)) :
  forallb taggedMove moves = true ->
  showsHovered (moveAll moves App.initialPicking).
Proof.
  induction moves as [|[[sel hits] ev] moves IH] using rev_ind; intros Htag.
  - intros Hv. discriminate Hv.
  - rewrite forallb_app in Htag. apply andb_prop in Htag as [Hmoves Hm].
    cbn [forallb] in Hm. rewrite andb_true_r in Hm.
    unfold taggedMove in Hm. cbn [fst snd] in Hm.
    specialize (IH Hmoves). rewrite moveAll_snoc. cbn [fst snd].
    set (st := moveAll moves App.initialPicking) in *.
    unfold onMouseMove. destruct sel as [i|]; [exact IH|].
    destruct hits as [|hit rest].
    + destruct (hoveredObject st); [|exact IH].
      intros Hv. discriminate Hv.
    + cbn [forallb] in Hm. apply andb_prop in Hm as [Hhit _].
      destruct (userData_incident hit) as [incident|] eqn:Hinc;
        [|discriminate Hhit].
      destruct (sameObject (hoveredObject st) hit) eqn:Hsame; cbn.
      * intros Hv. destruct (IH Hv) as (h & inc & Hh & Hi & Hc).
        exists h, inc. cbn. auto.
      * intros _. exists hit, incident. auto.
Qed.

Lemma tooltip_shows_hovered_incident_witness :
  showsHovered
    (moveAll [(None, [mkHit 7%nat (Some Sample.inGymnasium)], mkEvent 100 200);
              (None, [mkHit 7%nat (Some Sample.inGymnasium)], mkEvent 101 200)]
             App.initialPicking).
Proof.
  apply (tooltip_shows_hovered_incident
           [(None, [mkHit 7%nat (Some Sample.inGymnasium)], mkEvent 100 200);
            (None, [mkHit 7%nat (Some Sample.inGymnasium)], mkEvent 101 200)]).
  reflexivity.
Defined.

(** X7: whatever pointer moves came before, a move with no incident
    selected whose ray hits nothing leaves the tooltip hidden and no
    object hovered. *)
Theorem miss_hides_tooltip
  (moves : list (option Incident.t * list Hit * MouseEvent)) (event : MouseEvent) :
  let st := moveAll (moves ++ [(None, [], event)]) App.initialPicking in
  visible (tooltipData st) = false /\ hoveredObject st = None.
Proof.
  cbn zeta. rewrite moveAll_snoc. cbn [fst snd].
  pose proof (visible_hovered moves) as Hinv. cbn zeta in Hinv.
  set (st := moveAll moves App.initialPicking) in *.
  unfold onMouseMove.
  destruct (hoveredObject st) eqn:Hh; cbn; [split; reflexivity|].
  split; [|exact Hh].
  destruct (visible (tooltipData st)); [|reflexivity].
  exfalso. now apply Hinv.
Qed.

End PickingMoves.

(* ===================================================================== *)
(** ** The overlay: markers, labels and keys *)
(* ===================================================================== *)

Section OverlayElements.
Import Registry Overlay.

Lemma incidentMarker_hasMarker (hid : option Z) (i : Incident.t) :
  match incidentMarker hid i with
  | Some m =>
      hasMarker i = true /\ userData_incident m = i /\ onClick m = i
      /\ content m = textContent (Js.toString (Js.Finite (Incident.count i)))
      /\ className m = markerClass (isHighlightedId (Incident.id i) hid)
  | None => hasMarker i = false
  end.
Proof.
  unfold incidentMarker, hasMarker.
  destruct (Js.startsWith (Incident.location i) mainBuilding); [reflexivity|].
  destruct (findFacility (Incident.location i)); [|reflexivity].
  cbn. auto.
Qed.

(** X8: the markers are those of the stored incidents that are not of
    the main building and whose location is registered, one marker each,
    in the order of the store; a marker shows the count of its incident
    and selects that incident when clicked. *)
Theorem markers_follow_store (incidents : list Incident.t) (hid : option Z) :
  map userData_incident (incidentMarkersGroup (synchronize incidents hid))
  = List.filter hasMarker incidents
  /\ Forall (fun m =>
               onClick m = userData_incident m
               /\ content m
                  = textContent
                      (Js.toString
                         (Js.Finite (Incident.count (userData_incident m)))))
            (incidentMarkersGroup (synchronize incidents hid)).
Proof.
  unfold synchronize. cbn [incidentMarkersGroup].
  induction incidents as [|i l [IH1 IH2]]; [split; [reflexivity|constructor]|].
  cbn [incidentMarkers List.filter].
  pose proof (incidentMarker_hasMarker hid i) as Hm.
  destruct (incidentMarker hid i) as [m|].
  - destruct Hm as (-> & Hu & Hc & Ht & _). split.
    + cbn [map]. now rewrite Hu, IH1.
    + constructor; [|exact IH2]. rewrite Hu. now split.
  - rewrite Hm. now split.
Qed.

Lemma aggregated_latest_member (l : list Incident.t) (k : string) (e : Aggregate) :
  get (mainBuildingAggregated l) k = Some e -> latestIncident e ∈ l.
Proof.
  revert e. induction l as [|i l IH] using rev_ind; intros e Hg.
  - discriminate.
  - rewrite aggregated_snoc, get_reducer in Hg. apply elem_of_app.
    destruct (Js.startsWith (Incident.location i) mainBuilding
              && (Incident.location i =? k)%string) eqn:Hc.
    + injection Hg as <-. unfold folded.
      destruct (get (mainBuildingAggregated l) (Incident.location i))
        as [e0|] eqn:Hg0.
      * destruct (Js.gt _ _); cbn [latestIncident].
        -- right. apply list_elem_of_here.
        -- left. eapply IH.
           apply andb_prop in Hc as [_ Hk]. apply String.eqb_eq in Hk.
           rewrite <- Hk. exact Hg0.
      * destruct (Js.gt _ _); cbn [latestIncident]; right;
          apply list_elem_of_here.
    + left. now apply IH.
Qed.

Lemma get_Some_member (acc : list (string * Aggregate)) (k : string) (e : Aggregate) :
  get acc k = Some e -> (k, e) ∈ acc.
Proof.
  induction acc as [|[k0 e0] acc IH]; cbn [get]; [discriminate|].
  destruct (String.eqb_spec k0 k) as [->|Hne].
  - intros [= ->]. apply list_elem_of_here.
  - intros H. apply list_elem_of_further. now apply IH.
Qed.

Lemma get_is_key (acc : list (string * Aggregate)) (k : string) :
  k ∈ map fst acc <-> get acc k <> None.
Proof.
  split.
  - intros Hin Hnone. induction acc as [|[k0 e0] acc IH]; cbn in *.
    + now apply not_elem_of_nil in Hin.
    + destruct (String.eqb_spec k0 k) as [->|Hne]; [discriminate|].
      apply elem_of_cons in Hin as [Heq|Hin]; [congruence | now apply IH].
  - intros Hg. destruct (decide (k ∈ map fst acc)) as [H|H]; [exact H|].
    now apply get_not_key in H.
Qed.

Lemma storedAt_nonempty (k : string) (l : list Incident.t) :
  storedAt k l <> [] <-> exists i, i ∈ l /\ Incident.location i = k.
Proof.
  unfold storedAt. split.
  - intros Hne. destruct (List.filter _ l) as [|i rest] eqn:Hf; [congruence|].
    assert (Hin : In i (List.filter
                          (fun i => (Incident.location i =? k)%string) l))
      by (rewrite Hf; now left).
    apply filter_In in Hin as [Hin Hk].
    exists i. split; [now apply list_elem_of_In | now apply String.eqb_eq].
  - intros (i & Hin & Hk) Hnil.
    assert (Hi : In i (List.filter
                         (fun i => (Incident.location i =? k)%string) l)).
    { apply filter_In. split; [now apply list_elem_of_In|].
      rewrite Hk. apply String.eqb_refl. }
    rewrite Hnil in Hi. exact Hi.
Qed.

(** X9: the aggregation has one entry for each location that starts
    with the main-building prefix and has a stored incident, and no other
    entry. *)
Theorem aggregation_keys (incidents : list Incident.t) :
  NoDup (map fst (mainBuildingAggregated incidents))
  /\ forall k,
       k ∈ map fst (mainBuildingAggregated incidents)
       <-> Js.startsWith k mainBuilding = true
           /\ exists i, i ∈ incidents /\ Incident.location i = k.
Proof.
  split; [apply NoDup_keys_aggregated|]. intros k.
  rewrite get_is_key, <- storedAt_nonempty.
  pose proof (aggregated_present incidents k) as Hp.
  destruct (get (mainBuildingAggregated incidents) k) as [e|].
  - split; [intros _; exact Hp | intros _; discriminate].
  - split; [congruence|]. intros [Hpre Hne].
    destruct Hp as [Hp|Hp]; congruence.
Qed.

(** The labels of some entries, each the label of its own key. *)
Lemma labels_of_keys (hid : option Z) (acc : list (string * Aggregate)) :
  (forall k e, (k, e) ∈ acc -> Incident.location (latestIncident e) = k) ->
  NoDup (map fst acc) ->
  let labels :=
    flat_map snd (map (fun kv => mainBuildingEntry hid (fst kv) (snd kv)) acc) in
  NoDup (map (fun o => Incident.location (userData_incident o)) labels)
  /\ forall o, o ∈ labels ->
       Incident.location (userData_incident o) ∈ map fst acc
       /\ Incident.location (userData_incident o) ∈ facilityLocations
       /\ onClick o = userData_incident o.
Proof.
  cbn zeta. induction acc as [|[k e] acc IH]; intros Hkey Hnd.
  - split; [apply NoDup_nil_2|]. intros o Ho. now apply not_elem_of_nil in Ho.
  - cbn [map flat_map fst snd] in *. apply NoDup_cons in Hnd as [Hk Hnd].
    destruct IH as [IH1 IH2]; [|exact Hnd|].
    { intros k' e' Hin. apply Hkey. now apply list_elem_of_further. }
    assert (Hhead : forall o, o ∈ snd (mainBuildingEntry hid k e) ->
              snd (mainBuildingEntry hid k e) = [o]
              /\ Incident.location (userData_incident o) = k
              /\ k ∈ facilityLocations
              /\ onClick o = userData_incident o).
    { intros o Ho. unfold mainBuildingEntry in *.
      destruct (lookupParts mainBuildingParts k);
        [|now apply not_elem_of_nil in Ho].
      destruct (findFacility k) as [g|] eqn:Hg;
        [|now apply not_elem_of_nil in Ho].
      cbn [snd] in *. apply list_elem_of_singleton in Ho as ->.
      split; [reflexivity|]. cbn [userData_incident onClick].
      split; [apply Hkey, list_elem_of_here|]. split; [|reflexivity].
      apply findFacility_Some in Hg as [Hin <-]. unfold facilityLocations.
      apply list_elem_of_In, in_map, list_elem_of_In, Hin. }
    split.
    + rewrite map_app. apply NoDup_app. split; [|split; [|exact IH1]].
      * destruct (snd (mainBuildingEntry hid k e)) as [|o rest] eqn:Hs;
          [apply NoDup_nil_2|].
        destruct (Hhead o (list_elem_of_here _ _)) as ([= ->] & _).
        apply NoDup_singleton.
      * intros loc Hloc Hrest.
        apply list_elem_of_In, in_map_iff in Hloc as (o & <- & Ho).
        apply list_elem_of_In in Ho.
        destruct (Hhead o Ho) as (_ & Hlk & _).
        apply list_elem_of_In, in_map_iff in Hrest as (o' & Hl' & Ho').
        apply list_elem_of_In in Ho'.
        destruct (IH2 o' Ho') as (Hin' & _).
        apply Hk. rewrite <- Hlk, <- Hl'. exact Hin'.
    + intros o Ho. apply elem_of_app in Ho as [Ho|Ho].
      * destruct (Hhead o Ho) as (_ & Hlk & Hreg & Hclick).
        rewrite Hlk. split; [apply list_elem_of_here | now split].
      * destruct (IH2 o Ho) as (Hin & Hreg & Hclick).
        split; [now apply list_elem_of_further | now split].
Qed.

(** X10: the main building gets at most one label for a sub-location;
    a label belongs to a registered sub-location of the main building,
    is tagged with a stored incident of that sub-location and selects
    that incident when clicked. *)
Theorem one_label_per_sublocation (incidents : list Incident.t) (hid : option Z) :
  let labels := labelsOf (mainBuildingIncidentsGroup (synchronize incidents hid)) in
  NoDup (map (fun o => Incident.location (userData_incident o)) labels)
  /\ forall o, o ∈ labels ->
       Js.startsWith (Incident.location (userData_incident o)) mainBuilding = true
       /\ Incident.location (userData_incident o) ∈ facilityLocations
       /\ userData_incident o ∈ incidents
       /\ onClick o = userData_incident o.
Proof.
  cbn zeta.
  pose proof (labels_of_keys hid (mainBuildingAggregated incidents)) as Hl.
  cbn zeta in Hl. unfold synchronize. cbn [mainBuildingIncidentsGroup].
  rewrite labelsOf_entries.
  destruct Hl as [Hnd Hall]; [|apply NoDup_keys_aggregated|].
  { intros k e Hin. eapply aggregated_key.
    apply get_member; [apply NoDup_keys_aggregated | exact Hin]. }
  split; [exact Hnd|]. intros o Ho.
  destruct (Hall o Ho) as (Hkey & Hreg & Hclick).
  pose proof Ho as Ho'. rewrite <- labelsOf_entries in Ho'.
  assert (Hentry : exists k e,
             get (mainBuildingAggregated incidents) k = Some e
             /\ userData_incident o = latestIncident e).
  { pose proof (label_entry incidents hid o) as H.
    unfold synchronize in H. cbn [mainBuildingIncidentsGroup] in H.
    destruct (H Ho') as (k & e & Hg & _ & Hu). eauto. }
  destruct Hentry as (k & e & Hg & Hu).
  split; [|split; [exact Hreg|split; [|exact Hclick]]].
  - rewrite Hu. destruct (aggregated_key _ _ _ Hg) as [-> Hp]. exact Hp.
  - rewrite Hu. eapply aggregated_latest_member. exact Hg.
Qed.

Lemma marker_member (hid : option Z) (l : list Incident.t) (i : Incident.t)
      (m : CSS2DObject) :
  i ∈ l -> incidentMarker hid i = Some m -> m ∈ incidentMarkers hid l.
Proof.
  induction l as [|j l IH]; intros Hin Hm.
  - now apply not_elem_of_nil in Hin.
  - cbn [incidentMarkers]. apply elem_of_cons in Hin as [<-|Hin].
    + rewrite Hm. apply list_elem_of_here.
    + destruct (incidentMarker hid j);
        [apply list_elem_of_further|]; now apply IH.
Qed.

(** X11: an incident of a registered facility is never left unshown:
    it has its own marker, or, when it is of the main building, its
    sub-location has a label. *)
Theorem registered_incident_is_shown
  (incidents : list Incident.t) (hid : option Z) (i : Incident.t) :
  i ∈ incidents ->
  Incident.location i ∈ facilityLocations ->
  exists o,
    o ∈ interactiveObjects (synchronize incidents hid)
    /\ Incident.location (userData_incident o) = Incident.location i
    /\ (Js.startsWith (Incident.location i) mainBuilding = false ->
        userData_incident o = i).
Proof.
  intros Hin Hreg.
  destruct (Js.startsWith (Incident.location i) mainBuilding) eqn:Hp.
  - pose proof (aggregated_present incidents (Incident.location i)) as Hpres.
    destruct (get (mainBuildingAggregated incidents) (Incident.location i))
      as [e|] eqn:Hg.
    2:{ destruct Hpres as [Hpres|Hpres]; [congruence|].
        exfalso. apply (proj2 (storedAt_nonempty _ _)) in Hpres; [exact Hpres|].
        now exists i. }
    apply list_elem_of_In, in_map_iff in Hreg as (f & Hname & Hf).
    apply list_elem_of_In in Hf.
    destruct (registry_parts f Hf) as [parts Hparts]; [now rewrite Hname|].
    rewrite Hname in Hparts.
    destruct (findFacility (Incident.location i)) as [g|] eqn:Hfind.
    2:{ apply findFacility_None in Hfind. exfalso. apply Hfind.
        rewrite <- Hname. unfold facilityLocations.
        apply list_elem_of_In, in_map, list_elem_of_In, Hf. }
    assert (Hsnd : exists o,
               snd (mainBuildingEntry hid (Incident.location i) e) = [o]
               /\ userData_incident o = latestIncident e).
    { unfold mainBuildingEntry. rewrite Hparts, Hfind. cbn [snd].
      eexists. split; reflexivity. }
    destruct Hsnd as (o & Hsnd & Hu). exists o. split; [|split].
    + unfold synchronize. cbn [interactiveObjects].
      apply elem_of_app. left. apply list_elem_of_In, in_flat_map.
      exists (mainBuildingEntry hid (Incident.location i) e). split.
      * apply in_map_iff. exists (Incident.location i, e).
        split; [reflexivity|]. apply list_elem_of_In. now apply get_Some_member.
      * rewrite Hsnd. now left.
    + rewrite Hu. now apply (aggregated_key incidents).
    + discriminate.
  - pose proof (incidentMarker_hasMarker hid i) as Hm.
    destruct (incidentMarker hid i) as [m|] eqn:Hi.
    + destruct Hm as (_ & Hu & _). exists m. split; [|split].
      * unfold synchronize. cbn [interactiveObjects]. apply elem_of_app.
        right. now apply (marker_member hid incidents i).
      * now rewrite Hu.
      * intros _. exact Hu.
    + exfalso. destruct (findFacility (Incident.location i)) eqn:Hfind.
      * unfold incidentMarker in Hi. rewrite Hp, Hfind in Hi. discriminate Hi.
      * apply findFacility_None in Hfind. contradiction.
Qed.

Lemma registered_incident_is_shown_witness :
  exists o,
    o ∈ interactiveObjects
          (synchronize (Sample.inGymnasium :: Sample.sameDate) None)
    /\ Incident.location (userData_incident o)
       = Incident.location Sample.inGymnasium
    /\ (Js.startsWith (Incident.location Sample.inGymnasium) mainBuilding = false ->
        userData_incident o = Sample.inGymnasium).
Proof.
  apply (registered_incident_is_shown
           (Sample.inGymnasium :: Sample.sameDate) None Sample.inGymnasium).
  - apply list_elem_of_here.
  - apply (bool_decide_unpack _). vm_compute. reflexivity.
Defined.

Lemma filter_set_same (acc : list (string * Aggregate)) (k : string) (v : Aggregate) :
  List.filter (keyOther k) (set acc k v) = List.filter (keyOther k) acc.
Proof.
  unfold keyOther.
  induction acc as [|[k0 v0] acc IH]; cbn [set].
  - cbn [List.filter fst]. now rewrite String.eqb_refl.
  - destruct (String.eqb_spec k0 k) as [->|Hne].
    + cbn [List.filter fst]. now rewrite String.eqb_refl.
    + cbn [List.filter fst]. now rewrite IH.
Qed.

Lemma filter_set_other (acc : list (string * Aggregate)) (k k' : string)
      (v : Aggregate) :
  k' <> k ->
  List.filter (keyOther k) (set acc k' v) = set (List.filter (keyOther k) acc) k' v.
Proof.
  intros Hne. unfold keyOther.
  induction acc as [|[k0 v0] acc IH]; cbn [set].
  - cbn [List.filter fst].
    destruct (String.eqb_spec k' k); [contradiction | reflexivity].
  - destruct (String.eqb_spec k0 k') as [->|Hne0].
    + cbn [List.filter fst].
      destruct (String.eqb_spec k' k); [contradiction|].
      cbn [negb set]. now rewrite String.eqb_refl.
    + cbn [List.filter fst].
      destruct (String.eqb_spec k0 k) as [->|Hne1]; cbn [negb].
      * exact IH.
      * cbn [set]. destruct (String.eqb_spec k0 k'); [contradiction|].
        now rewrite IH.
Qed.

Lemma get_filter_other (acc : list (string * Aggregate)) (k k' : string) :
  k' <> k -> get (List.filter (keyOther k) acc) k' = get acc k'.
Proof.
  intros Hne. unfold keyOther.
  induction acc as [|[k0 v0] acc IH]; [reflexivity|].
  cbn [List.filter get fst].
  destruct (String.eqb_spec k0 k) as [->|Hne1]; cbn [negb].
  - destruct (String.eqb_spec k k'); [congruence | exact IH].
  - cbn [get]. now rewrite IH.
Qed.

Lemma withoutLocation_snoc (k : string) (l : list Incident.t) (i : Incident.t) :
  withoutLocation k (l ++ [i])
  = withoutLocation k l
    ++ (if (Incident.location i =? k)%string then [] else [i]).
Proof.
  unfold withoutLocation. rewrite List.filter_app. cbn.
  now destruct (Incident.location i =? k)%string.
Qed.

Lemma aggregated_without (k : string) (l : list Incident.t) :
  List.filter (keyOther k) (mainBuildingAggregated l)
  = mainBuildingAggregated (withoutLocation k l).
Proof.
  induction l as [|i l IH] using rev_ind; [reflexivity|].
  rewrite withoutLocation_snoc, aggregated_snoc.
  destruct (String.eqb_spec (Incident.location i) k) as [Hk|Hk].
  - rewrite app_nil_r, <- IH. unfold reducer.
    destruct (Js.startsWith _ _); [|reflexivity].
    rewrite Hk. apply filter_set_same.
  - rewrite aggregated_snoc, <- IH. unfold reducer.
    destruct (Js.startsWith _ _); [|reflexivity].
    rewrite filter_set_other by exact Hk.
    now rewrite get_filter_other by exact Hk.
Qed.

Lemma groups_without (hid : option Z) (k : string)
      (acc : list (string * Aggregate)) :
  lookupParts mainBuildingParts k = None ->
  flat_map fst (map (fun kv => mainBuildingEntry hid (fst kv) (snd kv)) acc)
  = flat_map fst (map (fun kv => mainBuildingEntry hid (fst kv) (snd kv))
                      (List.filter (keyOther k) acc))
  /\ flat_map snd (map (fun kv => mainBuildingEntry hid (fst kv) (snd kv)) acc)
     = flat_map snd (map (fun kv => mainBuildingEntry hid (fst kv) (snd kv))
                         (List.filter (keyOther k) acc)).
Proof.
  intros Hparts. induction acc as [|[k0 e0] acc [IH1 IH2]];
    [split; reflexivity|].
  unfold keyOther in *. cbn [map flat_map List.filter fst snd].
  destruct (String.eqb_spec k0 k) as [->|Hne]; cbn [negb].
  - assert (Hnone : mainBuildingEntry hid k e0 = ([], []))
      by (unfold mainBuildingEntry; now rewrite Hparts).
    rewrite Hnone. cbn [fst snd app]. now split.
  - cbn [map flat_map fst snd]. now rewrite IH1, IH2.
Qed.

Lemma markers_without (hid : option Z) (k : string) (l : list Incident.t) :
  Js.startsWith k mainBuilding = true ->
  incidentMarkers hid (withoutLocation k l) = incidentMarkers hid l.
Proof.
  intros Hp. induction l as [|i l IH]; [reflexivity|].
  unfold withoutLocation in *. cbn [List.filter incidentMarkers].
  destruct (String.eqb_spec (Incident.location i) k) as [Hk|Hk]; cbn [negb].
  - unfold incidentMarker. rewrite Hk, Hp. exact IH.
  - cbn [incidentMarkers]. now rewrite IH.
Qed.

(** X12: incidents filed under a main-building location that has no
    parts (the main building itself, or a sub-location the table does
    not list) leave no trace in the overlay: it is what it would be
    without them. *)
Theorem location_without_parts_is_ignored
  (incidents : list Incident.t) (hid : option Z) (location : string) :
  Js.startsWith location mainBuilding = true ->
  lookupParts mainBuildingParts location = None ->
  synchronize incidents hid = synchronize (withoutLocation location incidents) hid.
Proof.
  intros Hp Hparts. unfold synchronize.
  rewrite (markers_without hid location incidents Hp).
  rewrite <- aggregated_without.
  destruct (groups_without hid location (mainBuildingAggregated incidents) Hparts)
    as [-> ->].
  reflexivity.
Qed.

Lemma location_without_parts_is_ignored_witness :
  synchronize [Sample.inMainBuilding; Sample.inGymnasium] None
  = synchronize
      (withoutLocation "본관동" [Sample.inMainBuilding; Sample.inGymnasium]) None.
Proof.
  apply (location_without_parts_is_ignored
           [Sample.inMainBuilding; Sample.inGymnasium] None "본관동");
    reflexivity.
Defined.

Lemma ids_injective (l : list Incident.t) (a b : Incident.t) :
  NoDup (Store.ids l) -> a ∈ l -> b ∈ l -> Incident.id a = Incident.id b -> a = b.
Proof.
  unfold Store.ids. induction l as [|c l IH]; intros Hnd Ha Hb Hid.
  - now apply not_elem_of_nil in Ha.
  - cbn [map] in Hnd. apply NoDup_cons in Hnd as [Hc Hnd].
    apply elem_of_cons in Ha as [->|Ha]; apply elem_of_cons in Hb as [->|Hb].
    + reflexivity.
    + exfalso. apply Hc. rewrite Hid.
      apply list_elem_of_In, in_map, list_elem_of_In, Hb.
    + exfalso. apply Hc. rewrite <- Hid.
      apply list_elem_of_In, in_map, list_elem_of_In, Ha.
    + now apply IH.
Qed.

Lemma label_origin (hid : option Z) (acc : list (string * Aggregate))
      (o : CSS2DObject) :
  o ∈ flat_map snd (map (fun kv => mainBuildingEntry hid (fst kv) (snd kv)) acc) ->
  exists k e,
    (k, e) ∈ acc
    /\ userData_incident o = latestIncident e
    /\ className o
       = markerClass (isHighlightedId (Incident.id (latestIncident e)) hid).
Proof.
  induction acc as [|[k e] acc IH]; cbn [map flat_map fst snd]; intros Ho.
  - now apply not_elem_of_nil in Ho.
  - apply elem_of_app in Ho as [Ho|Ho].
    + exists k, e. split; [apply list_elem_of_here|].
      unfold mainBuildingEntry in Ho.
      destruct (lookupParts mainBuildingParts k);
        [|now apply not_elem_of_nil in Ho].
      destruct (findFacility k); [|now apply not_elem_of_nil in Ho].
      cbn [snd] in Ho. apply list_elem_of_singleton in Ho as ->.
      now split.
    + destruct (IH Ho) as (k' & e' & Hin & H). exists k', e'.
      split; [now apply list_elem_of_further | exact H].
Qed.

Lemma marker_origin (hid : option Z) (l : list Incident.t) (m : CSS2DObject) :
  m ∈ incidentMarkers hid l ->
  exists i, i ∈ l /\ incidentMarker hid i = Some m.
Proof.
  induction l as [|i l IH]; cbn [incidentMarkers]; intros Hm.
  - now apply not_elem_of_nil in Hm.
  - destruct (incidentMarker hid i) as [m0|] eqn:Hi.
    + apply elem_of_cons in Hm as [->|Hm].
      * exists i. split; [apply list_elem_of_here | exact Hi].
      * destruct (IH Hm) as (j & Hj & H). exists j.
        split; [now apply list_elem_of_further | exact H].
    + destruct (IH Hm) as (j & Hj & H). exists j.
      split; [now apply list_elem_of_further | exact H].
Qed.

Lemma element_class (l : list Incident.t) (hid : option Z) (o : CSS2DObject) :
  o ∈ interactiveObjects (synchronize l hid) ->
  userData_incident o ∈ l
  /\ onClick o = userData_incident o
  /\ className o
     = markerClass (isHighlightedId (Incident.id (userData_incident o)) hid)
  /\ (Js.startsWith (Incident.location (userData_incident o)) mainBuilding = true ->
      exists e,
        get (mainBuildingAggregated l) (Incident.location (userData_incident o))
        = Some e
        /\ userData_incident o = latestIncident e).
Proof.
  unfold synchronize. cbn [interactiveObjects]. intros Ho.
  apply elem_of_app in Ho as [Ho|Ho].
  - pose proof Ho as Ho'.
    apply label_origin in Ho as (k & e & Hin & Hu & Hc).
    apply get_member in Hin; [|apply NoDup_keys_aggregated].
    destruct (aggregated_key _ _ _ Hin) as [Hk Hp].
    split; [rewrite Hu; eapply aggregated_latest_member; exact Hin|].
    split.
    { pose proof (labels_of_keys hid (mainBuildingAggregated l)) as Hl.
      cbn zeta in Hl. destruct Hl as [_ Hall].
      - intros k' e' Hin'. eapply aggregated_key.
        apply get_member; [apply NoDup_keys_aggregated | exact Hin'].
      - apply NoDup_keys_aggregated.
      - now destruct (Hall o Ho') as (_ & _ & Hclick). }
    split; [now rewrite Hu|].
    intros _. exists e. rewrite Hu, Hk. now split.
  - apply marker_origin in Ho as (i & Hin & Hi).
    pose proof (incidentMarker_hasMarker hid i) as Hm. rewrite Hi in Hm.
    destruct Hm as (Hhas & Hu & Hclick & _ & Hc).
    rewrite Hu. split; [exact Hin|]. split; [exact Hclick|].
    split; [exact Hc|]. intros Hp. unfold hasMarker in Hhas.
    rewrite Hp in Hhas. discriminate Hhas.
Qed.


(** X14: selecting, in the list, a main-building incident that is not
    the latest of its sub-location highlights nothing in the overlay: the
    label of the sub-location carries the latest incident, and no other
    element has the selected id. *)
Theorem non_latest_selection_highlights_nothing
  (incidents : list Incident.t) (i : Incident.t) (e : Aggregate) :
  NoDup (Store.ids incidents) ->
  i ∈ incidents ->
  get (mainBuildingAggregated incidents) (Incident.location i) = Some e ->
  latestIncident e <> i ->
  Forall (fun o => className o = "marker")
         (interactiveObjects (synchronize incidents (Some (Incident.id i)))).
Proof.
  intros Hnd Hin Hg Hlatest. apply Forall_forall. intros o Ho.
  destruct (element_class incidents _ o Ho) as (Hmem & _ & -> & Hlabel).
  cbn [isHighlightedId].
  destruct (Z.eqb_spec (Incident.id (userData_incident o)) (Incident.id i))
    as [Hid|Hid]; [|reflexivity].
  exfalso. pose proof (ids_injective incidents _ _ Hnd Hmem Hin Hid) as Heq.
  destruct (aggregated_key _ _ _ Hg) as [_ Hp].
  rewrite Heq in Hlabel. destruct (Hlabel Hp) as (e' & Hg' & Hu).
  rewrite Hg in Hg'. injection Hg' as <-. congruence.
Qed.

Lemma non_latest_selection_highlights_nothing_witness :
  Forall (fun o => className o = "marker")
         (interactiveObjects
            (synchronize Sample.sameDate
                         (Some (Incident.id (Incident.make 2 "2024-05-01" "본관동 - 교실" 5 "fall"))))).
Proof.
  apply (non_latest_selection_highlights_nothing
           Sample.sameDate (Incident.make 2 "2024-05-01" "본관동 - 교실" 5 "fall")
           (mkAggregate (Js.Finite 7) (Incident.make 1 "2024-05-01" "본관동 - 교실" 2 "trip"))).
  - apply (bool_decide_unpack _). vm_compute. reflexivity.
  - unfold Sample.sameDate. apply list_elem_of_further, list_elem_of_here.
  - vm_compute. reflexivity.
  - discriminate.
Defined.

(** X15: submitting an incident for a registered facility outside the
    main building adds exactly one marker, tagged with the new incident
    and placed after the markers already there; the main-building group
    stays as it was. *)
Theorem submitted_incident_gets_marker
  (now : Z) (formData : Store.FormData) (prev : list Incident.t) (hid : option Z) :
  Js.startsWith (Store.location formData) mainBuilding = false ->
  Store.location formData ∈ facilityLocations ->
  let next := Store.handleAddIncident now formData prev in
  exists marker,
    incidentMarkersGroup (synchronize next hid)
    = incidentMarkersGroup (synchronize prev hid) ++ [marker]
    /\ userData_incident marker = submitted (now, formData)
    /\ content marker
       = textContent (Js.toString (Js.Finite (Store.count formData)))
    /\ mainBuildingIncidentsGroup (synchronize next hid)
       = mainBuildingIncidentsGroup (synchronize prev hid).
Proof.
  intros Hp Hreg. cbn zeta. unfold Store.handleAddIncident, synchronize.
  cbn [incidentMarkersGroup mainBuildingIncidentsGroup].
  rewrite incidentMarkers_app, aggregated_snoc.
  rewrite reducer_other by exact Hp.
  cbn [incidentMarkers]. unfold incidentMarker. cbn [Incident.location].
  rewrite Hp.
  destruct (findFacility (Store.location formData)) as [f|] eqn:Hf.
  - eexists. split; [reflexivity|]. now repeat split.
  - apply findFacility_None in Hf. contradiction.
Qed.

Lemma submitted_incident_gets_marker_witness :
  exists marker,
    incidentMarkersGroup
      (synchronize
         (Store.handleAddIncident 9 (Store.mkFormData "2024-05-01" "체육관" 3 "slip")
                                  Sample.sameDate) None)
    = incidentMarkersGroup (synchronize Sample.sameDate None) ++ [marker]
    /\ userData_incident marker
       = submitted (9, Store.mkFormData "2024-05-01" "체육관" 3 "slip")
    /\ content marker
       = textContent
           (Js.toString
              (Js.Finite
                 (Store.count (Store.mkFormData "2024-05-01" "체육관" 3 "slip"))))
    /\ mainBuildingIncidentsGroup
         (synchronize
            (Store.handleAddIncident 9
               (Store.mkFormData "2024-05-01" "체육관" 3 "slip") Sample.sameDate)
            None)
       = mainBuildingIncidentsGroup (synchronize Sample.sameDate None).
Proof.
  apply (submitted_incident_gets_marker
           9 (Store.mkFormData "2024-05-01" "체육관" 3 "slip") Sample.sameDate None).
  - reflexivity.
  - apply (bool_decide_unpack _). vm_compute. reflexivity.
Defined.

End OverlayElements.

(* ===================================================================== *)
(** ** The store only grows *)
(* ===================================================================== *)

Section StoreGrowth.

Lemma submitAll_app (subs more : list (Z * Store.FormData)) :
  Store.submitAll (subs ++ more) = Store.submitAll subs ++ map submitted more.
Proof.
  induction more as [|[now formData] more IH] using rev_ind.
  - now rewrite !app_nil_r.
  - rewrite app_assoc, submitAll_snoc, IH, map_app.
    unfold Store.handleAddIncident. now rewrite <- app_assoc.
Qed.

(** X16: the store is append-only: after further submissions the
    incidents stored before are all there, unchanged and in their places,
    followed by one incident for each further submission, in the order of
    submission, with the time stamp as id and the fields of the form. *)
Theorem store_is_append_only (subs more : list (Z * Store.FormData)) :
  Store.submitAll (subs ++ more) = Store.submitAll subs ++ map submitted more
  /\ Store.submitAll subs = map submitted subs
  /\ length (Store.submitAll subs) = length subs.
Proof.
  split; [apply submitAll_app|].
  assert (H : Store.submitAll subs = map submitted subs)
    by apply (submitAll_app [] subs).
  split; [exact H|]. rewrite H. apply length_map.
Qed.

End StoreGrowth.

(* ===================================================================== *)
(** ** The list of incidents, once more *)
(* ===================================================================== *)

Section PanelOrder.
Import Panel.








End PanelOrder.

(* ===================================================================== *)
(** ** [truncate], applied twice *)
(* ===================================================================== *)

Section TruncateTwice.

Lemma substring_0_append (s1 s2 : string) :
  substring 0 (String.length s1) (s1 +:+ s2) = s1.
Proof.
  induction s1 as [|c s1 IH].
  - now destruct s2.
  - simpl. now rewrite IH.
Qed.

(** X19: for a bound of at least 1, a truncated string has at most two
    characters more than the bound, and truncating it again with the same
    bound gives the same string. *)
Theorem truncate_twice (s : string) (n : Z) :
  1 <= n ->
  Text.truncate (Text.truncate s n) n = Text.truncate s n
  /\ Z.of_nat (String.length (Text.truncate s n)) <= n + 2.
Proof.
  intros Hn. unfold Text.truncate at 2 3 4.
  destruct (Z.gtb_spec (Z.of_nat (String.length s)) n) as [Hgt|Hle].
  - rewrite slice_first by lia.
    assert (Hlen : String.length (substring 0 (Z.to_nat (n - 1)) s)
                   = Z.to_nat (n - 1)) by (apply length_substring_0; lia).
    assert (Hall : Z.of_nat (String.length
                               (substring 0 (Z.to_nat (n - 1)) s +:+ "..."))
                   = n + 2).
    { rewrite length_append, Hlen. cbn [String.length]. lia. }
    split; [|lia]. unfold Text.truncate.
    destruct (Z.gtb_spec
                (Z.of_nat (String.length
                             (substring 0 (Z.to_nat (n - 1)) s +:+ "..."))) n)
      as [_|Hle]; [|lia].
    rewrite slice_first by lia. rewrite <- Hlen at 1.
    now rewrite substring_0_append.
  - split; [|lia]. unfold Text.truncate.
    destruct (Z.gtb_spec (Z.of_nat (String.length s)) n); [lia | reflexivity].
Qed.

Lemma truncate_twice_witness :
  Text.truncate (Text.truncate "abcdef" 3) 3 = Text.truncate "abcdef" 3
  /\ Z.of_nat (String.length (Text.truncate "abcdef" 3)) <= 3 + 2.
Proof. apply (truncate_twice "abcdef" 3). lia. Defined.

End TruncateTwice.

(* ===================================================================== *)
(** ** Selecting and closing *)
(* ===================================================================== *)

Section AppFacts.
Import Three Highlight.

Lemma NoDup_recorded scene locationName (st : State) :
  NoDup (recordedObjects (highlightObjectsByLocation scene locationName st)).
Proof.
  assert (Hinv : passInvariant (unhighlightAllObjects st)
                               (highlightObjectsByLocation scene locationName st)).
  { unfold highlightObjectsByLocation. destruct scene as [sc|].
    - apply passInvariant_pass, passInvariant_start. reflexivity.
    - apply passInvariant_start. reflexivity. }
  apply Hinv.
Qed.

Lemma run_snoc (st : App.State) (events : list App.Event) (e : App.Event) :
  App.run st (events ++ [e]) = App.step (App.run st events) e.
Proof. unfold App.run. now rewrite fold_left_app. Qed.

Lemma selectionInvariant_step (st : App.State) (e : App.Event) :
  selectionInvariant st -> selectionInvariant (App.step st e).
Proof.
  intros (Hidle & Hsel & Hvis & Hnd & Hreach).
  destruct e as [now formData|event intersects|scene incident rerun|rerun];
    unfold selectionInvariant; cbn [App.step].
  - cbn [App.selectedIncident App.highlightedIncidentId App.picking
         App.refs App.incidents].
    split; [exact Hidle|]. split; [exact Hsel|]. split; [exact Hvis|].
    split; [exact Hnd|]. constructor. exact Hreach.
  - cbn [App.selectedIncident App.highlightedIncidentId App.picking
         App.refs App.incidents].
    split; [exact Hidle|]. split; [exact Hsel|].
    split; [|split; [exact Hnd | exact Hreach]].
    destruct (App.selectedIncident st) as [i|] eqn:Hs; [|reflexivity].
    cbn [Picking.onMouseMove]. intros Hv. exfalso.
    specialize (Hvis Hv). discriminate Hvis.
  - cbn [App.handleIncidentSelect App.selectedIncident
         App.highlightedIncidentId App.picking App.refs App.incidents].
    split; [discriminate|]. split; [now intros i [= <-]|].
    split; [|split; [apply NoDup_recorded | exact Hreach]].
    destruct rerun; cbn; discriminate.
  - cbn [App.handleCloseModal App.selectedIncident
         App.highlightedIncidentId App.picking App.refs App.incidents].
    split; [now split|]. split; [discriminate|].
    split; [reflexivity|]. split; [apply NoDup_nil_2 | exact Hreach].
Qed.

(** X20: whatever happens to the component (submissions, pointer moves,
    selections, closings, in any order) from the moment it is mounted
    with nothing highlighted: while no incident is selected no highlighted
    id is set and no object is recorded as highlighted; while an incident
    is selected the highlighted id is its id; the tooltip is never
    visible while an incident is selected; no object is recorded twice;
    and the store is one the form can produce. *)
Theorem selection_invariants (world : State) (events : list App.Event) :
  highlightedObjects world = [] ->
  selectionInvariant (App.run (App.initial world) events).
Proof.
  intros Hworld. induction events as [|e events IH] using rev_ind.
  - unfold selectionInvariant, App.run, App.initial. cbn [fold_left
      App.selectedIncident App.highlightedIncidentId App.picking
      App.refs App.incidents].
    split; [now split|]. split; [discriminate|]. split; [reflexivity|].
    split; [|constructor]. unfold recordedObjects. rewrite Hworld.
    apply NoDup_nil_2.
  - rewrite run_snoc. now apply selectionInvariant_step.
Qed.

Lemma selection_invariants_witness :
  selectionInvariant
    (App.run (App.initial Sample.world)
       [App.Submit 1714521600000 Sample.slip;
        App.Select (Some Sample.scene) Sample.inGymnasium true;
        App.PointerMove (Picking.mkEvent 1 2) [];
        App.Close true]).
Proof.
  apply (selection_invariants Sample.world
           [App.Submit 1714521600000 Sample.slip;
            App.Select (Some Sample.scene) Sample.inGymnasium true;
            App.PointerMove (Picking.mkEvent 1 2) [];
            App.Close true]).
  reflexivity.
Defined.

(** X21: selecting an incident and then closing the modal leaves no
    incident selected, no highlighted id, no record, the tooltip hidden
    and the store as it was; every object has again the material it had
    before highlighting, and the materials that existed are unchanged. *)
Theorem select_then_close
  (scene : option Object3D) (incident : Incident.t) (st : App.State) :
  let st' := App.handleCloseModal (App.handleIncidentSelect scene incident st) in
  App.selectedIncident st' = None
  /\ App.highlightedIncidentId st' = None
  /\ highlightedObjects (App.refs st') = []
  /\ material (App.refs st') = material (unhighlightAllObjects (App.refs st))
  /\ (highlightedObjects (App.refs st) = [] ->
      material (App.refs st') = material (App.refs st))
  /\ heap (App.refs st) ⊆ heap (App.refs st')
  /\ Picking.visible (Picking.tooltipData (App.picking st')) = false
  /\ App.incidents st' = App.incidents st.
Proof.
  cbn zeta. cbn [App.handleCloseModal App.handleIncidentSelect
                 App.selectedIncident App.highlightedIncidentId App.refs
                 App.picking App.incidents].
  split; [reflexivity|]. split; [reflexivity|]. split; [reflexivity|].
  split; [apply restored_highlightObjectsByLocation|].
  split; [|split; [|split; reflexivity]].
  - intros Hidle. rewrite restored_highlightObjectsByLocation.
    unfold unhighlightAllObjects. cbn [material]. now rewrite Hidle.
  - unfold highlightObjectsByLocation. destruct scene as [sc|]; [|reflexivity].
    cbn [unhighlightAllObjects heap].
    apply (heap_highlightPass _ (unhighlightAllObjects (App.refs st))).
Qed.

End AppFacts.
